(** * sap.f.IllustratedMessage: a shallow embedding and its properties

    The control of [src/sap.f/src/sap/f/IllustratedMessage.js] is embedded
    method by method.  A method of the control is a computation over the
    [World]: the control instance itself ([this]), the child controls it
    has created (a store indexed by object identity), the registry of the
    framework's [ResizeHandler] and the resource bundle of library
    [sap.f].  A computation that raises a [TypeError] (a method called on
    an object that does not have it) yields [None]. *)

From Stdlib Require Import Ascii String QArith Lqa.
From stdpp Require Import gmap strings list fin_maps.

Open Scope string_scope.

Set Warnings "-clear-no-such-hyp".

(** ** JavaScript values used by the control *)

(** A value that is either [undefined] or a string: the cached
    illustration set and type, a resource-bundle text, an array element
    read by index. *)
Inductive JSValue : Type :=
| undefined
| JSString (s : string).

#[global] Instance JSValue_eq_dec : EqDecision JSValue.
Proof. solve_decision. Defined.

(** [String(v)], as applied by [+] when the left operand is a string. *)
Definition ToString (v : JSValue) : string :=
  match v with
  | undefined => "undefined"
  | JSString s => s
  end.

(** [s + v] for a string [s]. *)
Definition js_concat (s : string) (v : JSValue) : string := s ++ ToString v.

(** A JavaScript [Number].  Every finite double is a rational, and the
    control only compares a width with integer constants, so a finite
    number is carried as its rational value. *)
Inductive Number : Type :=
| NaN
| Finite (q : Q)
| PosInfinity
| NegInfinity.

(** The truth value of a number in a condition: false for [0], [-0]
    and [NaN]. *)
Definition num_truthy (n : Number) : bool :=
  match n with
  | NaN => false
  | Finite q => negb (Qeq_bool q 0)
  | PosInfinity | NegInfinity => true
  end.

(** [n <= k] for an integer constant [k]. *)
Definition num_le (n : Number) (k : Z) : bool :=
  match n with
  | NaN => false
  | Finite q => Qle_bool q (inject_Z k)
  | PosInfinity => false
  | NegInfinity => true
  end.

(** ** String primitives *)

Definition dash : ascii := "-"%char.

(** [s.split(sep)] for a one-character separator.  The result is never
    empty: a string without the separator is returned as its only
    element. *)
Fixpoint split (sep : ascii) (s : string) : list string :=
  match s with
  | EmptyString => [EmptyString]
  | String c rest =>
      if bool_decide (c = sep) then EmptyString :: split sep rest
      else match split sep rest with
           | h :: t => String c h :: t
           | [] => [String c EmptyString]
           end
  end.

(** [a[i]]: reading past the end of an array gives [undefined]. *)
Definition index (a : list string) (i : nat) : JSValue :=
  match a !! i with
  | Some s => JSString s
  | None => undefined
  end.

Definition upper_ascii (c : ascii) : ascii :=
  let n := nat_of_ascii c in
  if (97 <=? n)%nat && (n <=? 122)%nat then ascii_of_nat (n - 32) else c.

Definition lower_ascii (c : ascii) : ascii :=
  let n := nat_of_ascii c in
  if (65 <=? n)%nat && (n <=? 90)%nat then ascii_of_nat (n + 32) else c.

Fixpoint map_string (f : ascii -> ascii) (s : string) : string :=
  match s with
  | EmptyString => EmptyString
  | String c rest => String (f c) (map_string f rest)
  end.

(** [s.toUpperCase()] and [s.toLowerCase()] on the ASCII names the
    control applies them to (enumeration members and the keys of
    [MEDIA]). *)
Definition toUpperCase : string -> string := map_string upper_ascii.
Definition toLowerCase : string -> string := map_string lower_ascii.

(** [s.charAt(0)] and [s.slice(1)]. *)
Definition charAt0 (s : string) : string :=
  match s with
  | EmptyString => EmptyString
  | String c _ => String c EmptyString
  end.

Definition slice1 (s : string) : string :=
  match s with
  | EmptyString => EmptyString
  | String _ rest => rest
  end.

(** ** The framework's data *)

(** Modelled from the spec: the enumeration [sap.f.IllustratedMessageSize]
    that types the [illustrationSize] property is declared in the
    library module, which is not part of the sources; its members are
    [Auto] and one member per entry of [IllustratedMessage.MEDIA]. *)
Inductive IllustratedMessageSize : Type :=
| Auto
| Base
| Spot
| Dialog
| Scene.

#[global] Instance IllustratedMessageSize_eq_dec : EqDecision IllustratedMessageSize.
Proof. solve_decision. Defined.

(** The string an enumeration member stands for in the running code. *)
Definition size_name (z : IllustratedMessageSize) : string :=
  match z with
  | Auto => "Auto"
  | Base => "Base"
  | Spot => "Spot"
  | Dialog => "Dialog"
  | Scene => "Scene"
  end.

(** What [getDomRef()] returns when the control is rendered: an element
    whose bounding rectangle has a width. *)
Record DomRef : Type := mkDomRef { rect_width : Number }.

(** Modelled from the spec: the child controls kept in the hidden
    aggregations ("a control's owned child control(s)").  Their classes
    [sap.m.Text], [sap.m.Title], [sap.m.FormattedText] and
    [sap.f.Illustration] are not part of the sources; a child is carried
    as the last value handed to each of the setters the control calls. *)
Inductive Child : Type :=
| Text (text : JSValue)
| Title (text : JSValue)
| FormattedText (htmlText : JSValue)
| Illustration (set media type : JSValue).

#[global] Instance Child_eq_dec : EqDecision Child.
Proof. solve_decision. Defined.

(** A reference a method returns: the control itself ([return this]) or
    one of its children.  Where only a child can be meant, the child's
    identity stands for the reference. *)
Inductive ObjectRef : Type :=
| ThisRef
| ChildRef (o : nat).

(** Who a listener registered with the [ResizeHandler] belongs to: the
    control's own [_onResize], bound to the control, or some other
    object of the page. *)
Inductive Listener : Type :=
| OwnOnResize
| Foreign (n : nat).

#[global] Instance Listener_eq_dec : EqDecision Listener.
Proof. solve_decision. Defined.

(** The instance: its five properties, the managed-object state the
    methods read and write (aggregations by name, custom style classes,
    the DOM reference) and the private instance fields.  A private
    field read as [this[sHandler]] is kept by name; a missing name is a
    falsy field ([undefined] or [null]). *)
Record IllustratedMessage : Type := mkIllustratedMessage {
  description : string;
  enableFormattedText : bool;
  illustrationSize : IllustratedMessageSize;
  illustrationType : string;
  title : string;
  mAggregations : gmap string nat;
  aCustomStyleClasses : gset string;
  oDomRef : option DomRef;
  _sIllustrationSet : JSValue;
  _sIllustrationType : JSValue;
  mHandlerIds : gmap string nat
}.

(** The control together with what it acts on. *)
Record World : Type := mkWorld {
  this : IllustratedMessage;
  objects : gmap nat Child;
  aResizeListeners : gmap nat Listener;
  iResizeCounter : nat;
  oResourceBundle : string -> JSValue
}.

Definition with_this (f : IllustratedMessage -> IllustratedMessage) (w : World) : World :=
  mkWorld (f (this w)) (objects w) (aResizeListeners w) (iResizeCounter w)
          (oResourceBundle w).

Definition with_objects (f : gmap nat Child -> gmap nat Child) (w : World) : World :=
  mkWorld (this w) (f (objects w)) (aResizeListeners w) (iResizeCounter w)
          (oResourceBundle w).

Definition with_illustrationType (s : string) (c : IllustratedMessage) : IllustratedMessage :=
  mkIllustratedMessage (description c) (enableFormattedText c) (illustrationSize c)
    s (title c) (mAggregations c) (aCustomStyleClasses c) (oDomRef c)
    (_sIllustrationSet c) (_sIllustrationType c) (mHandlerIds c).

Definition with_aggregations (f : gmap string nat -> gmap string nat)
    (c : IllustratedMessage) : IllustratedMessage :=
  mkIllustratedMessage (description c) (enableFormattedText c) (illustrationSize c)
    (illustrationType c) (title c) (f (mAggregations c)) (aCustomStyleClasses c)
    (oDomRef c) (_sIllustrationSet c) (_sIllustrationType c) (mHandlerIds c).

Definition with_classes (f : gset string -> gset string)
    (c : IllustratedMessage) : IllustratedMessage :=
  mkIllustratedMessage (description c) (enableFormattedText c) (illustrationSize c)
    (illustrationType c) (title c) (mAggregations c) (f (aCustomStyleClasses c))
    (oDomRef c) (_sIllustrationSet c) (_sIllustrationType c) (mHandlerIds c).

Definition with_sIllustrationSet (v : JSValue) (c : IllustratedMessage) : IllustratedMessage :=
  mkIllustratedMessage (description c) (enableFormattedText c) (illustrationSize c)
    (illustrationType c) (title c) (mAggregations c) (aCustomStyleClasses c)
    (oDomRef c) v (_sIllustrationType c) (mHandlerIds c).

Definition with_sIllustrationType (v : JSValue) (c : IllustratedMessage) : IllustratedMessage :=
  mkIllustratedMessage (description c) (enableFormattedText c) (illustrationSize c)
    (illustrationType c) (title c) (mAggregations c) (aCustomStyleClasses c)
    (oDomRef c) (_sIllustrationSet c) v (mHandlerIds c).

Definition with_handlerIds (f : gmap string nat -> gmap string nat)
    (c : IllustratedMessage) : IllustratedMessage :=
  mkIllustratedMessage (description c) (enableFormattedText c) (illustrationSize c)
    (illustrationType c) (title c) (mAggregations c) (aCustomStyleClasses c)
    (oDomRef c) (_sIllustrationSet c) (_sIllustrationType c) (f (mHandlerIds c)).

(** ** Computations *)

(** A method body: it reads and writes the world and either returns a
    value or raises. *)
Definition M (A : Type) : Type := World -> option (A * World).

#[global] Instance M_ret : MRet M := λ A a w, Some (a, w).

#[global] Instance M_bind : MBind M := λ A B k c w,
  match c w with
  | Some (a, w') => k a w'
  | None => None
  end.

Definition gets {A : Type} (f : World -> A) : M A := λ w, Some (f w, w).
Definition modify (f : World -> World) : M unit := λ w, Some (tt, f w).
Definition raise {A : Type} : M A := λ _, None.

(** [a.forEach(f)]. *)
Fixpoint forEach {A : Type} (a : list A) (f : A -> M unit) : M unit :=
  match a with
  | [] => mret tt
  | x :: rest => f x ;; forEach rest f
  end.

(** ** The framework's operations *)

(** Modelled from the spec: the generated property getters of the
    control's base class [sap.ui.core.Control], which is not part of the
    sources; a getter returns the stored property value. *)
Definition getDescription : M string := gets (λ w, description (this w)).
Definition getEnableFormattedText : M bool := gets (λ w, enableFormattedText (this w)).
Definition getIllustrationSize : M string := gets (λ w, size_name (illustrationSize (this w))).
Definition getIllustrationType : M string := gets (λ w, illustrationType (this w)).
Definition getTitle : M string := gets (λ w, title (this w)).

(** Modelled from the spec: [setProperty("illustrationType", sValue)] of
    the absent base class stores the value and returns the control. *)
Definition setProperty_illustrationType (sValue : string) : M ObjectRef :=
  modify (with_this (with_illustrationType sValue)) ;;
  mret ThisRef.

(** Modelled from the spec: [getAggregation] and [setAggregation] of the
    absent base class, for an aggregation of cardinality 0..1 ("a
    control's owned child control(s)"): the child stored under the name,
    [null] ([None]) when there is none. *)
Definition getAggregation (sName : string) : M (option nat) :=
  gets (λ w, mAggregations (this w) !! sName).

Definition setAggregation (sName : string) (o : nat) : M unit :=
  modify (with_this (with_aggregations <[sName := o]>)).

(** Modelled from the spec: [toggleStyleClass(sClass, bAdd)] of the
    absent base class adds the class when [bAdd] is true and removes it
    otherwise; a value that is not a non-empty string is ignored. *)
Definition toggleStyleClass (sClass : JSValue) (bAdd : bool) : M unit :=
  match sClass with
  | JSString (String c s) =>
      modify (with_this (with_classes
        (λ cls, if bAdd then cls ∪ {[String c s]} else cls ∖ {[String c s]})))
  | _ => mret tt
  end.

Definition getDomRef : M (option DomRef) := gets (λ w, oDomRef (this w)).

(** [new C()]: a child control with an identity no live object has. *)
Definition new (c : Child) : M nat := λ w,
  let o := fresh (dom (objects w)) in
  Some (o, with_objects <[o := c]> w).

(** Modelled from the spec: the setters of the absent child classes.
    A setter stores the value and returns the child, so that calls
    chain; calling it on an object of a class without that setter
    raises. *)
Definition setText (o : nat) (v : JSValue) : M nat := λ w,
  match objects w !! o with
  | Some (Text _) => Some (o, with_objects <[o := Text v]> w)
  | Some (Title _) => Some (o, with_objects <[o := Title v]> w)
  | _ => None
  end.

Definition setHtmlText (o : nat) (v : JSValue) : M nat := λ w,
  match objects w !! o with
  | Some (FormattedText _) => Some (o, with_objects <[o := FormattedText v]> w)
  | _ => None
  end.

Definition setSet (o : nat) (v : JSValue) : M nat := λ w,
  match objects w !! o with
  | Some (Illustration _ m t) => Some (o, with_objects <[o := Illustration v m t]> w)
  | _ => None
  end.

Definition setMedia (o : nat) (v : JSValue) : M nat := λ w,
  match objects w !! o with
  | Some (Illustration s _ t) => Some (o, with_objects <[o := Illustration s v t]> w)
  | _ => None
  end.

Definition setType (o : nat) (v : JSValue) : M nat := λ w,
  match objects w !! o with
  | Some (Illustration s m _) => Some (o, with_objects <[o := Illustration s m v]> w)
  | _ => None
  end.

(** Modelled from the spec: [Core.getLibraryResourceBundle("sap.f")] and
    the bundle's [getText(sKey, null, true)] ("a framework service
    resolving localized text keys"): the text of the key, [undefined]
    for a key the bundle does not have. *)
Definition getLibraryResourceBundle : M (string -> JSValue) := gets oResourceBundle.

Definition getText (oBundle : string -> JSValue) (sKey : string) : JSValue := oBundle sKey.

(** Modelled from the spec: [ResizeHandler.register] of the absent
    framework module hands out a new listener id and keeps the listener
    under it; [ResizeHandler.deregister] drops the listener of an id. *)
Definition ResizeHandler_register (l : Listener) : M nat := λ w,
  let id := S (iResizeCounter w) in
  Some (id, mkWorld (this w) (objects w) (<[id := l]> (aResizeListeners w)) id
                    (oResourceBundle w)).

Definition ResizeHandler_deregister (id : nat) : M unit := λ w,
  Some (tt, mkWorld (this w) (objects w) (delete id (aResizeListeners w))
                    (iResizeCounter w) (oResourceBundle w)).

(** ** Static members *)

Definition PREPENDS_DESCRIPTION : string := "IllustratedMessage_DESCRIPTION_".
Definition PREPENDS_TITLE : string := "IllustratedMessage_TITLE_".

Definition BREAK_POINTS_DIALOG : Z := 679.
Definition BREAK_POINTS_SPOT : Z := 319.
Definition BREAK_POINTS_BASE : Z := 259.

(** [IllustratedMessage.MEDIA], an object literal: its keys in
    insertion order with their values. *)
Definition MEDIA : list (string * string) :=
  [ ("BASE", "sapFIllustratedMessage-Base");
    ("SPOT", "sapFIllustratedMessage-Spot");
    ("DIALOG", "sapFIllustratedMessage-Dialog");
    ("SCENE", "sapFIllustratedMessage-Scene") ].

Definition Object_keys (o : list (string * string)) : list string := o.*1.

(** [o[k]]. *)
Fixpoint prop (o : list (string * string)) (k : string) : JSValue :=
  match o with
  | [] => undefined
  | (k', v) :: rest => if bool_decide (k' = k) then JSString v else prop rest k
  end.

Definition MEDIA_BASE : JSValue := prop MEDIA "BASE".
Definition MEDIA_SPOT : JSValue := prop MEDIA "SPOT".
Definition MEDIA_DIALOG : JSValue := prop MEDIA "DIALOG".
Definition MEDIA_SCENE : JSValue := prop MEDIA "SCENE".

Definition RESIZE_HANDLER_ID_CONTENT : string := "_sContentResizeHandlerId".

Definition IllustratedMessageSize_Auto : string := size_name Auto.

(** ** The control's methods, in the order of the source *)

(** Caches the illustration set and type in private instance fields. *)
Definition _updateInternalIllustrationSetAndType (sValue : string) : M unit :=
  let aValues := split dash sValue in
  modify (with_this (with_sIllustrationSet (index aValues 0))) ;;
  modify (with_this (with_sIllustrationType (index aValues 1))).

Definition init : M unit :=
  sType ← getIllustrationType ;
  _updateInternalIllustrationSetAndType sType.

Definition setIllustrationType (sValue : string) : M ObjectRef :=
  sType ← getIllustrationType ;
  if bool_decide (sType = sValue) then mret ThisRef
  else
    _updateInternalIllustrationSetAndType sValue ;;
    setProperty_illustrationType sValue.

Definition _getResourceBundle : M (string -> JSValue) := getLibraryResourceBundle.

Definition _getDefaultDescription : M JSValue :=
  oBundle ← _getResourceBundle ;
  sType ← gets (λ w, _sIllustrationType (this w)) ;
  mret (getText oBundle (js_concat PREPENDS_DESCRIPTION sType)).

Definition _getFormattedText : M nat :=
  sDescription ← getDescription ;
  oStored ← getAggregation "_formattedText" ;
  oFormattedText ← match oStored with
                    | Some o => mret o
                    | None =>
                        o ← new (FormattedText undefined) ;
                        setAggregation "_formattedText" o ;;
                        mret o
                    end ;
  (if bool_decide (sDescription ≠ "") then
     setHtmlText oFormattedText (JSString sDescription)
   else
     sDefault ← _getDefaultDescription ;
     setHtmlText oFormattedText sDefault) ;;
  mret oFormattedText.

Definition _getIllustration : M nat :=
  oStored ← getAggregation "_illustration" ;
  match oStored with
  | Some o => mret o
  | None =>
      o ← new (Illustration undefined undefined undefined) ;
      setAggregation "_illustration" o ;;
      mret o
  end.

Definition _getText : M nat :=
  sDescription ← getDescription ;
  oStored ← getAggregation "_text" ;
  oText ← match oStored with
           | Some o => mret o
           | None =>
               o ← new (Text undefined) ;
               setAggregation "_text" o ;;
               mret o
           end ;
  (if bool_decide (sDescription ≠ "") then
     setText oText (JSString sDescription)
   else
     sDefault ← _getDefaultDescription ;
     setText oText sDefault) ;;
  mret oText.

Definition _getDescription : M nat :=
  bFormatted ← getEnableFormattedText ;
  if (bFormatted : bool) then _getFormattedText else _getText.

Definition _getTitle : M nat :=
  sTitle ← getTitle ;
  oStored ← getAggregation "_title" ;
  oTitle ← match oStored with
            | Some o => mret o
            | None =>
                o ← new (Title undefined) ;
                setAggregation "_title" o ;;
                mret o
            end ;
  (if bool_decide (sTitle ≠ "") then
     setText oTitle (JSString sTitle)
   else
     oBundle ← _getResourceBundle ;
     sType ← gets (λ w, _sIllustrationType (this w)) ;
     setText oTitle (getText oBundle (js_concat PREPENDS_TITLE sType))) ;;
  mret oTitle.

(** Puts the media classes on the control and updates the
    illustration's symbol for the current media. *)
Definition _updateMediaStyle (sCurrentMedia : JSValue) : M unit :=
  forEach (Object_keys MEDIA) (λ sMedia,
    let bEnable := bool_decide (sCurrentMedia = prop MEDIA sMedia) in
    let sIdMedia := charAt0 sMedia ++ toLowerCase (slice1 sMedia) in
    toggleStyleClass (prop MEDIA sMedia) bEnable ;;
    if bEnable && negb (bool_decide (sCurrentMedia = MEDIA_BASE)) then
      oIllustration ← _getIllustration ;
      sSet ← gets (λ w, _sIllustrationSet (this w)) ;
      o1 ← setSet oIllustration sSet ;
      o2 ← setMedia o1 (JSString sIdMedia) ;
      sType ← gets (λ w, _sIllustrationType (this w)) ;
      setType o2 sType ;;
      mret tt
    else mret tt).

(** Updates the media of the control from its own width. *)
Definition _updateMedia (iWidth : Number) : M unit :=
  if negb (num_truthy iWidth) then mret tt
  else if num_le iWidth BREAK_POINTS_BASE then _updateMediaStyle MEDIA_BASE
  else if num_le iWidth BREAK_POINTS_SPOT then _updateMediaStyle MEDIA_SPOT
  else if num_le iWidth BREAK_POINTS_DIALOG then _updateMediaStyle MEDIA_DIALOG
  else _updateMediaStyle MEDIA_SCENE.

Definition _updateDomSize : M unit :=
  oDom ← getDomRef ;
  match oDom with
  | Some d =>
      sSize ← getIllustrationSize ;
      if bool_decide (sSize = IllustratedMessageSize_Auto) then
        _updateMedia (rect_width d)
      else
        _updateMediaStyle (prop MEDIA (toUpperCase sSize))
  | None => mret tt
  end.

(** Handles the resize event; [iCurrentWidth] is [oEvent.size.width]. *)
Definition _onResize (iCurrentWidth : Number) : M unit := _updateMedia iCurrentWidth.

Definition _registerResizeHandler (sHandler : string) (l : Listener) : M unit :=
  oId ← gets (λ w, mHandlerIds (this w) !! sHandler) ;
  match oId with
  | Some _ => mret tt
  | None =>
      id ← ResizeHandler_register l ;
      modify (with_this (with_handlerIds <[sHandler := id]>))
  end.

Definition _deRegisterResizeHandler (sHandler : string) : M unit :=
  oId ← gets (λ w, mHandlerIds (this w) !! sHandler) ;
  match oId with
  | Some id =>
      ResizeHandler_deregister id ;;
      modify (with_this (with_handlerIds (delete sHandler)))
  | None => mret tt
  end.

Definition _attachResizeHandlers : M unit :=
  sIllustrationSize ← getIllustrationSize ;
  oDom ← getDomRef ;
  if bool_decide (is_Some oDom)
     && bool_decide (sIllustrationSize = IllustratedMessageSize_Auto) then
    _registerResizeHandler RESIZE_HANDLER_ID_CONTENT OwnOnResize
  else mret tt.

Definition _detachResizeHandlers : M unit :=
  _deRegisterResizeHandler RESIZE_HANDLER_ID_CONTENT.

Definition onBeforeRendering : M unit := _detachResizeHandlers.

Definition onAfterRendering : M unit :=
  _updateDomSize ;;
  _attachResizeHandlers.

Definition exit : M unit := _detachResizeHandlers.

(** ** Well-formed worlds *)

(** The class a child was constructed from. *)
Definition class_name (c : Child) : string :=
  match c with
  | Text _ => "sap.m.Text"
  | Title _ => "sap.m.Title"
  | FormattedText _ => "sap.m.FormattedText"
  | Illustration _ _ _ => "sap.f.Illustration"
  end.

(** The [type] the control's metadata declares for each hidden
    aggregation. *)
Definition aggregation_type (sName : string) : option string :=
  if bool_decide (sName = "_formattedText") then Some "sap.m.FormattedText"
  else if bool_decide (sName = "_illustration") then Some "sap.f.Illustration"
  else if bool_decide (sName = "_text") then Some "sap.m.Text"
  else if bool_decide (sName = "_title") then Some "sap.m.Title"
  else None.

(** Every stored child is a live object of the class the metadata
    declares for its aggregation. *)
Definition typed (w : World) : Prop :=
  map_Forall (λ sName o,
      is_Some (objects w !! o)
      ∧ class_name <$> objects w !! o = aggregation_type sName)
    (mAggregations (this w)).

#[global] Instance typed_dec (w : World) : Decision (typed w).
Proof. unfold typed. apply _. Defined.

(** Every listener of the control that the [ResizeHandler] holds is the
    one whose id the control keeps in its private field. *)
Definition handlers_ok (w : World) : Prop :=
  map_Forall (λ id l,
      l = OwnOnResize → mHandlerIds (this w) !! RESIZE_HANDLER_ID_CONTENT = Some id)
    (aResizeListeners w).

#[global] Instance handlers_ok_dec (w : World) : Decision (handlers_ok w).
Proof. unfold handlers_ok. apply _. Defined.

(** A resize listener of the control is registered. *)
Definition resize_registered (w : World) : Prop :=
  ∃ id, aResizeListeners w !! id = Some OwnOnResize.

(** What each of the four getters does with its aggregation: the stored
    child if there is one, else a new child stored under the name. *)
Definition lazy_child (sName : string) (c0 : Child) (w : World) : nat * World :=
  match mAggregations (this w) !! sName with
  | Some o => (o, w)
  | None =>
      let o := fresh (dom (objects w)) in
      (o, with_this (with_aggregations <[sName := o]>) (with_objects <[o := c0]> w))
  end.

(** The text the description controls are given. *)
Definition description_text (w : World) : JSValue :=
  if bool_decide (description (this w) ≠ "") then JSString (description (this w))
  else oResourceBundle w (js_concat PREPENDS_DESCRIPTION (_sIllustrationType (this w))).

(** The text the title control is given. *)
Definition title_text (w : World) : JSValue :=
  if bool_decide (title (this w) ≠ "") then JSString (title (this w))
  else oResourceBundle w (js_concat PREPENDS_TITLE (_sIllustrationType (this w))).

(** ** A running instance *)

(** The instance as the constructor leaves it before [init], for a given
    default of the [illustrationType] property (the member
    [NoSearchResults] of an enumeration declared outside the sources). *)
Definition new_IllustratedMessage (sDefaultType : string) : IllustratedMessage :=
  mkIllustratedMessage "" false Auto sDefaultType "" ∅ ∅ None undefined undefined ∅.

(** A page: the new control, no child of it yet, some listeners of other
    objects, and a bundle that knows the texts of one illustration
    type. *)
Definition example_bundle (sKey : string) : JSValue :=
  if bool_decide (sKey = "IllustratedMessage_TITLE_UnableToLoad")
  then JSString "Unable to load"
  else if bool_decide (sKey = "IllustratedMessage_DESCRIPTION_UnableToLoad")
  then JSString "Check your connection"
  else undefined.

Definition example_page : World :=
  mkWorld (new_IllustratedMessage "sapIllus-UnableToLoad") ∅ {[ 1 := Foreign 7 ]} 1
          example_bundle.

(** What the renderer leaves: the control has a DOM reference or none. *)
Definition rendered (oDom : option DomRef) (w : World) : World :=
  with_this (λ c,
    mkIllustratedMessage (description c) (enableFormattedText c) (illustrationSize c)
      (illustrationType c) (title c) (mAggregations c) (aCustomStyleClasses c)
      oDom (_sIllustrationSet c) (_sIllustrationType c) (mHandlerIds c)) w.

(** The world of a computation that returns, the given world if it
    raises. *)
Definition after {A : Type} (c : M A) (w : World) : World :=
  match c w with
  | Some (_, w') => w'
  | None => w
  end.

(** The example page after construction and a first rendering at a
    width of 300 pixels. *)
Definition example_rendered : World :=
  after onAfterRendering
    (rendered (Some (mkDomRef (Finite 300)))
       (after _getDescription
          (after _getTitle
             (after _getIllustration
                (after onBeforeRendering (after init example_page)))))).

(** [g] is a lazy getter of the aggregation [sName] at [w]: it returns
    the child stored in the aggregation afterwards; it returns the
    already stored child, creating no object, when there was one, and
    creates exactly one new object when there was none; and a second
    call returns the same object and creates none. *)
Definition lazy_getter_at (g : M nat) (sName : string) (w : World) : Prop :=
  ∃ o w1,
    g w = Some (o, w1)
    ∧ mAggregations (this w1) !! sName = Some o
    ∧ (∀ o', mAggregations (this w) !! sName = Some o' →
         o = o' ∧ dom (objects w1) = dom (objects w))
    ∧ (mAggregations (this w) !! sName = None →
         (o ∉ dom (objects w)) ∧ dom (objects w1) = {[o]} ∪ dom (objects w))
    ∧ ∃ w2, g w1 = Some (o, w2) ∧ dom (objects w2) = dom (objects w1).

(** ** The media update, as functions on the world *)

(** The body [_updateMediaStyle] runs for each key of [MEDIA]. *)
Definition media_step (sCurrentMedia : JSValue) (sMedia : string) : M unit :=
  let bEnable := bool_decide (sCurrentMedia = prop MEDIA sMedia) in
  let sIdMedia := charAt0 sMedia ++ toLowerCase (slice1 sMedia) in
  toggleStyleClass (prop MEDIA sMedia) bEnable ;;
  if bEnable && negb (bool_decide (sCurrentMedia = MEDIA_BASE)) then
    oIllustration ← _getIllustration ;
    sSet ← gets (λ w, _sIllustrationSet (this w)) ;
    o1 ← setSet oIllustration sSet ;
    o2 ← setMedia o1 (JSString sIdMedia) ;
    sType ← gets (λ w, _sIllustrationType (this w)) ;
    setType o2 sType ;;
    mret tt
  else mret tt.

(** The inner illustration, created if need be, given the cached set,
    a media name and the cached type. *)
Definition set_illustration (sIdMedia : string) (w : World) : World :=
  let '(o, w1) :=
    lazy_child "_illustration" (Illustration undefined undefined undefined) w in
  with_objects
    <[o := Illustration (_sIllustrationSet (this w)) (JSString sIdMedia)
                        (_sIllustrationType (this w))]> w1.

(** The four media style classes. *)
Definition media_classes : list string := MEDIA.*2.

(** The style classes once every media class but [m] is removed and [m]
    is added. *)
Definition only_media (m : string) (cls : gset string) : gset string :=
  (cls ∖ list_to_set media_classes) ∪ {[m]}.

(** The world after [_updateMediaStyle(m)] for a media class [m]. *)
Definition media_applied (m : string) (w : World) : World :=
  let w1 := with_this (with_classes (only_media m)) w in
  if bool_decide (m = "sapFIllustratedMessage-Spot") then set_illustration "Spot" w1
  else if bool_decide (m = "sapFIllustratedMessage-Dialog") then set_illustration "Dialog" w1
  else if bool_decide (m = "sapFIllustratedMessage-Scene") then set_illustration "Scene" w1
  else w1.

(** The name of a media, as the inner illustration is given it. *)
Definition media_name (m : string) : string :=
  if bool_decide (m = "sapFIllustratedMessage-Spot") then "Spot"
  else if bool_decide (m = "sapFIllustratedMessage-Dialog") then "Dialog"
  else if bool_decide (m = "sapFIllustratedMessage-Scene") then "Scene"
  else "Base".

(** ** Widths *)

(** A width above zero. *)
Definition positive_width (n : Number) : Prop :=
  match n with
  | Finite q => (0 < q)%Q
  | PosInfinity => True
  | NaN | NegInfinity => False
  end.

(** A width JavaScript takes for false: zero or [NaN]. *)
Definition falsy_width (n : Number) : Prop :=
  match n with
  | Finite q => (q == 0)%Q
  | NaN => True
  | PosInfinity | NegInfinity => False
  end.

(** [n <= k] and [k < n] as propositions. *)
Definition width_le (n : Number) (k : Q) : Prop :=
  match n with
  | Finite q => (q <= k)%Q
  | NegInfinity => True
  | NaN | PosInfinity => False
  end.

Definition width_gt (n : Number) (k : Q) : Prop :=
  match n with
  | Finite q => (k < q)%Q
  | PosInfinity => True
  | NaN | NegInfinity => False
  end.

(** The media class of a width, by the break points 259, 319 and 679. *)
Inductive media_for_width (n : Number) : string → Prop :=
| width_base :
    width_le n 259 → media_for_width n "sapFIllustratedMessage-Base"
| width_spot :
    width_gt n 259 → width_le n 319 → media_for_width n "sapFIllustratedMessage-Spot"
| width_dialog :
    width_gt n 319 → width_le n 679 → media_for_width n "sapFIllustratedMessage-Dialog"
| width_scene :
    width_gt n 679 → media_for_width n "sapFIllustratedMessage-Scene".

(** ** What the children-related methods leave alone *)

(** A world without its children: aggregations, style classes and child
    objects are blanked, everything else is kept. *)
Definition skeleton (w : World) : World :=
  with_objects (λ _, ∅)
    (with_this (λ c, with_classes (λ _, ∅) (with_aggregations (λ _, ∅) c)) w).

(** ** Segments of an illustration type *)

(** [s] contains a ["-"]. *)
Fixpoint has_dash (s : string) : bool :=
  match s with
  | EmptyString => false
  | String c rest => bool_decide (c = dash) || has_dash rest
  end.

(** The segment of [s] before its first ["-"]; all of [s] when it has
    none. *)
Fixpoint before_dash (s : string) : string :=
  match s with
  | EmptyString => EmptyString
  | String c rest =>
      if bool_decide (c = dash) then EmptyString else String c (before_dash rest)
  end.

(** What follows the first ["-"] of [s], if [s] has one. *)
Fixpoint after_dash (s : string) : option string :=
  match s with
  | EmptyString => None
  | String c rest => if bool_decide (c = dash) then Some rest else after_dash rest
  end.

(** The segment between the first and the second ["-"] of [s]: up to
    the end of [s] when it has one ["-"] only, and no segment when it
    has none. *)
Definition between_dashes (s : string) : option string :=
  before_dash <$> after_dash s.

(** The cache holds the segments of [s]; a missing type segment is
    cached as [undefined]. *)
Definition cached_for (s : string) (w : World) : Prop :=
  _sIllustrationSet (this w) = JSString (before_dash s)
  ∧ _sIllustrationType (this w)
    = match between_dashes s with
      | Some t => JSString t
      | None => undefined
      end.

(** The cache holds the segments of the [illustrationType] property. *)
Definition cache_ok (w : World) : Prop := cached_for (illustrationType (this w)) w.

#[global] Instance cache_ok_dec (w : World) : Decision (cache_ok w).
Proof. unfold cache_ok, cached_for. apply _. Defined.

(** ** Resize handlers *)

(** No resize listener of the control is registered and its private
    field holds no id. *)
Definition detached (w : World) : Prop :=
  mHandlerIds (this w) !! RESIZE_HANDLER_ID_CONTENT = None ∧ ¬ resize_registered w.

(** The world after [_detachResizeHandlers]. *)
Definition detach_content (w : World) : World :=
  match mHandlerIds (this w) !! RESIZE_HANDLER_ID_CONTENT with
  | Some id =>
      with_this (with_handlerIds (delete RESIZE_HANDLER_ID_CONTENT))
        (mkWorld (this w) (objects w) (delete id (aResizeListeners w))
                 (iResizeCounter w) (oResourceBundle w))
  | None => w
  end.

(** The world after [_attachResizeHandlers]. *)
Definition attach_content (w : World) : World :=
  if bool_decide (is_Some (oDomRef (this w)))
     && bool_decide (illustrationSize (this w) = Auto) then
    match mHandlerIds (this w) !! RESIZE_HANDLER_ID_CONTENT with
    | Some _ => w
    | None =>
        with_this (with_handlerIds <[RESIZE_HANDLER_ID_CONTENT := S (iResizeCounter w)]>)
          (mkWorld (this w) (objects w)
                   (<[S (iResizeCounter w) := OwnOnResize]> (aResizeListeners w))
                   (S (iResizeCounter w)) (oResourceBundle w))
    end
  else w.

(** ** The life of the control *)

(** The generated setters of the four properties the control does not
    override: they store the value. *)
Definition set_properties (sDescription : string) (bFormatted : bool)
    (z : IllustratedMessageSize) (sTitle : string)
    (c : IllustratedMessage) : IllustratedMessage :=
  mkIllustratedMessage sDescription bFormatted z (illustrationType c) sTitle
    (mAggregations c) (aCustomStyleClasses c) (oDomRef c)
    (_sIllustrationSet c) (_sIllustrationType c) (mHandlerIds c).

(** One thing that happens to a constructed control: a call of one of
    its methods by the application, the renderer or the framework, the
    renderer producing or dropping its DOM element, a generated setter,
    or other objects of the page registering and deregistering their
    own resize listeners. *)
Inductive step (w : World) : World → Prop :=
| step_setIllustrationType (s : string) (w' : World) :
    setIllustrationType s w = Some (ThisRef, w') → step w w'
| step_getter (g : M nat) (o : nat) (w' : World) :
    g ∈ [_getFormattedText; _getIllustration; _getText; _getDescription; _getTitle] →
    g w = Some (o, w') → step w w'
| step_hook (h : M unit) (w' : World) :
    h ∈ [onBeforeRendering; onAfterRendering; exit; _updateDomSize] →
    h w = Some (tt, w') → step w w'
| step_onResize (iWidth : Number) (w' : World) :
    _onResize iWidth w = Some (tt, w') → step w w'
| step_rendered (oDom : option DomRef) :
    step w (rendered oDom w)
| step_properties (sDescription : string) (bFormatted : bool)
    (z : IllustratedMessageSize) (sTitle : string) :
    step w (with_this (set_properties sDescription bFormatted z sTitle) w)
| step_foreign (ls : gmap nat Listener) (n : nat) :
    (∀ id, ls !! id = Some OwnOnResize ↔ aResizeListeners w !! id = Some OwnOnResize) →
    step w (mkWorld (this w) (objects w) ls n (oResourceBundle w)).

(** The worlds a control can be in: constructed (its constructor runs
    [init]) on a page that holds no child and no listener of it, and
    then anything that can happen to it. *)
Inductive reachable : World → Prop :=
| reachable_constructed (sDefaultType : string) (ob : gmap nat Child)
    (ls : gmap nat Listener) (n : nat) (b : string → JSValue) :
    (∀ id, ls !! id ≠ Some OwnOnResize) →
    reachable (after init (mkWorld (new_IllustratedMessage sDefaultType) ob ls n b))
| reachable_step (w w' : World) :
    reachable w → step w w' → reachable w'.

(** ** Further notions *)

(** The media class [_updateMedia] applies for a width: none for a
    width JavaScript takes for false. *)
Definition media_of_width (n : Number) : option string :=
  if negb (num_truthy n) then None
  else if num_le n BREAK_POINTS_BASE then Some "sapFIllustratedMessage-Base"
  else if num_le n BREAK_POINTS_SPOT then Some "sapFIllustratedMessage-Spot"
  else if num_le n BREAK_POINTS_DIALOG then Some "sapFIllustratedMessage-Dialog"
  else Some "sapFIllustratedMessage-Scene".

(** The media class of an [illustrationSize] other than [Auto]. *)
Definition media_of_size (z : IllustratedMessageSize) : option string :=
  match z with
  | Auto => None
  | Base => Some "sapFIllustratedMessage-Base"
  | Spot => Some "sapFIllustratedMessage-Spot"
  | Dialog => Some "sapFIllustratedMessage-Dialog"
  | Scene => Some "sapFIllustratedMessage-Scene"
  end.

(** The media class [_updateDomSize] applies: none without a DOM
    reference. *)
Definition media_of_dom (w : World) : option string :=
  match oDomRef (this w) with
  | None => None
  | Some d =>
      match illustrationSize (this w) with
      | Auto => media_of_width (rect_width d)
      | z => media_of_size z
      end
  end.

(** The world after an optional media update. *)
Definition media_applied_opt (om : option string) (w : World) : World :=
  match om with
  | Some m => media_applied m w
  | None => w
  end.

(** The id in the control's private field is the id of a registered
    listener of the control. *)
Definition handler_live (w : World) : Prop :=
  ∀ id, mHandlerIds (this w) !! RESIZE_HANDLER_ID_CONTENT = Some id →
        aResizeListeners w !! id = Some OwnOnResize.

(** The control carries at most one media class. *)
Definition one_media (w : World) : Prop :=
  ∀ c1 c2, c1 ∈ media_classes → c2 ∈ media_classes →
           c1 ∈ aCustomStyleClasses (this w) → c2 ∈ aCustomStyleClasses (this w) →
           c1 = c2.

(** The children [w] holds are still held in [w']: every filled
    aggregation keeps its child, and the child keeps its class. *)
Definition children_kept (w w' : World) : Prop :=
  ∀ sName o, mAggregations (this w) !! sName = Some o →
    mAggregations (this w') !! sName = Some o
    ∧ class_name <$> objects w' !! o = class_name <$> objects w !! o.

(** A negative width. *)
Definition negative_width (n : Number) : Prop :=
  match n with
  | Finite q => (q < 0)%Q
  | NegInfinity => True
  | NaN | PosInfinity => False
  end.

(** The getters of the hidden aggregations, each with the aggregation
    it serves. *)
Definition hidden_getters : list (M nat * string) :=
  [ (_getFormattedText, "_formattedText");
    (_getIllustration, "_illustration");
    (_getText, "_text");
    (_getTitle, "_title") ].

(** The example page with a second style class of the application's. *)
Definition example_styled : World :=
  with_this (with_classes (λ cls, cls ∪ {["sapUiSmallMargin"]})) example_rendered.

(** * Properties *)

(** ** The embedding on concrete inputs *)

Example split_two_segments :
  split dash "sapIllus-UnableToLoad" = ["sapIllus"; "UnableToLoad"].
Proof. reflexivity. Qed.

Example split_without_dash : split dash "NoData" = ["NoData"].
Proof. reflexivity. Qed.

Example split_edges : split dash "" = [""] ∧ split dash "a--b-" = ["a"; ""; "b"; ""].
Proof. by split. Qed.

Example media_id_of_key :
  charAt0 "DIALOG" ++ toLowerCase (slice1 "DIALOG") = "Dialog"
  ∧ prop MEDIA (toUpperCase "Dialog") = JSString "sapFIllustratedMessage-Dialog"
  ∧ prop MEDIA (toUpperCase "Auto") = undefined.
Proof. by split_and!. Qed.

Example example_rendered_state :
  elements (aCustomStyleClasses (this example_rendered)) = ["sapFIllustratedMessage-Spot"]
  ∧ map_to_list (mHandlerIds (this example_rendered)) = [("_sContentResizeHandlerId", 2)]
  ∧ aResizeListeners example_rendered !! 2 = Some OwnOnResize
  ∧ (∃ o, mAggregations (this example_rendered) !! "_illustration" = Some o
          ∧ objects example_rendered !! o
            = Some (Illustration (JSString "sapIllus") (JSString "Spot")
                                 (JSString "UnableToLoad")))
  ∧ (∃ o, mAggregations (this example_rendered) !! "_title" = Some o
          ∧ objects example_rendered !! o = Some (Title (JSString "Unable to load"))).
Proof. split_and!; try (eexists; split); by vm_compute. Qed.

Ltac unfold_M :=
  unfold mbind, M_bind, mret, M_ret, gets, modify.

(** ** Typing of the hidden aggregations *)

Lemma typed_lookup (w : World) (sName : string) (o : nat) :
  typed w → mAggregations (this w) !! sName = Some o →
  ∃ c, objects w !! o = Some c ∧ aggregation_type sName = Some (class_name c).
Proof.
  intros Hw H. destruct (Hw _ _ H) as [[c Hc] Ht].
  exists c. split; [done|]. by rewrite Hc in Ht.
Qed.

Lemma fresh_object_None (w : World) : objects w !! fresh (dom (objects w)) = None.
Proof. apply not_elem_of_dom, is_fresh. Qed.

(** Storing a newly constructed child of the declared class. *)
Lemma typed_store (w : World) (sName : string) (c : Child) (o : nat) :
  typed w → aggregation_type sName = Some (class_name c) →
  objects w !! o = None →
  typed (with_this (with_aggregations <[sName := o]>) (with_objects <[o := c]> w)).
Proof.
  intros Hw Hc Ho n o' H. simpl in *.
  destruct (decide (sName = n)) as [->|Hne].
  - rewrite lookup_insert_eq in H. injection H as <-.
    rewrite lookup_insert_eq. by split; [eexists|simpl].
  - rewrite lookup_insert_ne in H by done.
    destruct (typed_lookup _ _ _ Hw H) as (c' & Hc' & Ht).
    rewrite lookup_insert_ne by congruence.
    rewrite Hc'. by split; [eexists|simpl].
Qed.

(** Replacing a live child by one of the same class. *)
Lemma typed_update (w : World) (c c' : Child) (o : nat) :
  typed w → objects w !! o = Some c → class_name c' = class_name c →
  typed (with_objects <[o := c']> w).
Proof.
  intros Hw Ho Hc n o' H. simpl in *.
  destruct (typed_lookup _ _ _ Hw H) as (c'' & Hc'' & Ht).
  destruct (decide (o = o')) as [->|Hne].
  - rewrite lookup_insert_eq. split; [by eexists|simpl]. congruence.
  - rewrite lookup_insert_ne by done. rewrite Hc''. by split; [eexists|simpl].
Qed.

Lemma lazy_child_typed (sName : string) (c0 : Child) (w : World) :
  typed w → aggregation_type sName = Some (class_name c0) →
  ∃ c, objects (lazy_child sName c0 w).2 !! (lazy_child sName c0 w).1 = Some c
       ∧ class_name c = class_name c0
       ∧ mAggregations (this (lazy_child sName c0 w).2) !! sName
         = Some (lazy_child sName c0 w).1
       ∧ typed (lazy_child sName c0 w).2.
Proof.
  intros Hw Hc. unfold lazy_child.
  destruct (mAggregations (this w) !! sName) as [o|] eqn:E; simpl.
  - destruct (typed_lookup _ _ _ Hw E) as (c & Ho & Ht).
    exists c. split_and!; try done. congruence.
  - exists c0. rewrite !lookup_insert_eq. split_and!; try done.
    apply typed_store; auto using fresh_object_None.
Qed.

(** ** The getters of the hidden aggregations *)

Lemma _getIllustration_run (w : World) :
  _getIllustration w
  = Some (lazy_child "_illustration" (Illustration undefined undefined undefined) w).
Proof.
  unfold _getIllustration, lazy_child, getAggregation, new, setAggregation. unfold_M.
  by destruct (_ !! "_illustration").
Qed.

Lemma _getText_run (w : World) :
  _getText w
  = let '(o, w1) := lazy_child "_text" (Text undefined) w in
    match setText o (description_text w) w1 with
    | Some (_, w2) => Some (o, w2)
    | None => None
    end.
Proof.
  unfold _getText, lazy_child, description_text, getDescription, getAggregation, new,
    setAggregation, _getDefaultDescription, _getResourceBundle,
    getLibraryResourceBundle, getText.
  unfold_M.
  destruct (_ !! "_text"); by case_bool_decide.
Qed.

Lemma _getFormattedText_run (w : World) :
  _getFormattedText w
  = let '(o, w1) := lazy_child "_formattedText" (FormattedText undefined) w in
    match setHtmlText o (description_text w) w1 with
    | Some (_, w2) => Some (o, w2)
    | None => None
    end.
Proof.
  unfold _getFormattedText, lazy_child, description_text, getDescription, getAggregation,
    new, setAggregation, _getDefaultDescription, _getResourceBundle,
    getLibraryResourceBundle, getText.
  unfold_M.
  destruct (_ !! "_formattedText"); by case_bool_decide.
Qed.

Lemma _getTitle_run (w : World) :
  _getTitle w
  = let '(o, w1) := lazy_child "_title" (Title undefined) w in
    match setText o (title_text w) w1 with
    | Some (_, w2) => Some (o, w2)
    | None => None
    end.
Proof.
  unfold _getTitle, lazy_child, title_text, getTitle, getAggregation, new,
    setAggregation, _getResourceBundle, getLibraryResourceBundle, getText.
  unfold_M.
  destruct (_ !! "_title"); by case_bool_decide.
Qed.

Lemma _getText_spec (w : World) :
  typed w →
  _getText w
  = Some ((lazy_child "_text" (Text undefined) w).1,
          with_objects
            <[(lazy_child "_text" (Text undefined) w).1 := Text (description_text w)]>
            (lazy_child "_text" (Text undefined) w).2).
Proof.
  intros Hw. rewrite _getText_run.
  destruct (lazy_child_typed "_text" (Text undefined) w Hw eq_refl) as (c & Ho & Hc & _).
  destruct (lazy_child _ _ w) as [o w1]; simpl in *.
  unfold setText. rewrite Ho. by destruct c.
Qed.

Lemma _getFormattedText_spec (w : World) :
  typed w →
  _getFormattedText w
  = Some ((lazy_child "_formattedText" (FormattedText undefined) w).1,
          with_objects
            <[(lazy_child "_formattedText" (FormattedText undefined) w).1
              := FormattedText (description_text w)]>
            (lazy_child "_formattedText" (FormattedText undefined) w).2).
Proof.
  intros Hw. rewrite _getFormattedText_run.
  destruct (lazy_child_typed "_formattedText" (FormattedText undefined) w Hw eq_refl)
    as (c & Ho & Hc & _).
  destruct (lazy_child _ _ w) as [o w1]; simpl in *.
  unfold setHtmlText. rewrite Ho. by destruct c.
Qed.

Lemma _getTitle_spec (w : World) :
  typed w →
  _getTitle w
  = Some ((lazy_child "_title" (Title undefined) w).1,
          with_objects
            <[(lazy_child "_title" (Title undefined) w).1 := Title (title_text w)]>
            (lazy_child "_title" (Title undefined) w).2).
Proof.
  intros Hw. rewrite _getTitle_run.
  destruct (lazy_child_typed "_title" (Title undefined) w Hw eq_refl) as (c & Ho & Hc & _).
  destruct (lazy_child _ _ w) as [o w1]; simpl in *.
  unfold setText. rewrite Ho. by destruct c.
Qed.

(** ** Lazy creation *)

Lemma lazy_child_stored (sName : string) (c0 : Child) (w : World) (o : nat) :
  mAggregations (this w) !! sName = Some o → lazy_child sName c0 w = (o, w).
Proof. intros H. unfold lazy_child. by rewrite H. Qed.

Lemma lazy_child_created (sName : string) (c0 : Child) (w : World) :
  mAggregations (this w) !! sName = None →
  ((lazy_child sName c0 w).1 ∉ dom (objects w))
  ∧ dom (objects (lazy_child sName c0 w).2)
    = {[(lazy_child sName c0 w).1]} ∪ dom (objects w).
Proof.
  intros H. unfold lazy_child. rewrite H. simpl. split.
  - apply is_fresh.
  - apply dom_insert_L.
Qed.

Lemma dom_update_live (w : World) (o : nat) (c c' : Child) :
  objects w !! o = Some c → dom (objects (with_objects <[o := c']> w)) = dom (objects w).
Proof.
  intros H. simpl. rewrite dom_insert_L.
  assert (o ∈ dom (objects w)) by (apply elem_of_dom; eauto). set_solver.
Qed.

(** A getter that takes the lazy child and gives it a value of the same
    class is a lazy getter. *)
Lemma lazy_getter_intro (g : M nat) (sName : string) (c0 : Child) (f : World → Child) :
  aggregation_type sName = Some (class_name c0) →
  (∀ w, class_name (f w) = class_name c0) →
  (∀ w, typed w →
     g w = Some ((lazy_child sName c0 w).1,
                 with_objects <[(lazy_child sName c0 w).1 := f w]>
                   (lazy_child sName c0 w).2)) →
  ∀ w, typed w → lazy_getter_at g sName w.
Proof.
  intros Ht Hf Hg w Hw.
  destruct (lazy_child_typed sName c0 w Hw Ht) as (c & Ho & Hc & Ha & Hw1).
  pose proof (Hg w Hw) as Hrun.
  set (o := (lazy_child sName c0 w).1) in *.
  set (w1 := (lazy_child sName c0 w).2) in *.
  assert (Hw1' : typed (with_objects <[o := f w]> w1)).
  { eapply typed_update; eauto. by rewrite Hf, Hc. }
  exists o, (with_objects <[o := f w]> w1). split_and!; try done.
  - intros o' E. subst o w1. rewrite (lazy_child_stored _ _ _ _ E) in *. simpl in *.
    split; [done|]. by apply (dom_update_live w o' c).
  - intros E. destruct (lazy_child_created sName c0 w E) as [Hn Hd].
    split; [done|]. by rewrite (dom_update_live w1 o c).
  - rewrite (Hg _ Hw1').
    assert (E : mAggregations (this (with_objects <[o := f w]> w1)) !! sName = Some o) by done.
    rewrite (lazy_child_stored _ _ _ _ E). simpl.
    eexists. split; [done|].
    rewrite !dom_insert_L. set_solver.
Qed.

Lemma _getIllustration_lazy (w : World) :
  typed w → lazy_getter_at _getIllustration "_illustration" w.
Proof.
  intros Hw. set (c0 := Illustration undefined undefined undefined).
  destruct (lazy_child_typed "_illustration" c0 w Hw eq_refl) as (c & Ho & Hc & Ha & Hw1).
  exists (lazy_child "_illustration" c0 w).1, (lazy_child "_illustration" c0 w).2.
  split_and!; try done.
  - rewrite _getIllustration_run. by destruct (lazy_child _ _ w).
  - intros o' E. by rewrite (lazy_child_stored _ _ _ _ E).
  - apply lazy_child_created.
  - rewrite _getIllustration_run. rewrite (lazy_child_stored _ _ _ _ Ha). eauto.
Qed.

(** ** The media update *)

Ltac eval_decide :=
  repeat match goal with
  | |- context [bool_decide ?P] =>
      let b := eval vm_compute in (bool_decide P) in
      match b with true => idtac | false => idtac end;
      change (bool_decide P) with b
  end.

Lemma _updateMediaStyle_steps (m : JSValue) :
  _updateMediaStyle m
  = (media_step m "BASE" ;; media_step m "SPOT" ;; media_step m "DIALOG" ;;
     media_step m "SCENE" ;; mret tt).
Proof. reflexivity. Qed.

(** The chain of setters on the lazily created illustration. *)
Lemma illustration_chain_run (sIdMedia : string) (w : World) :
  typed w →
  (oIllustration ← _getIllustration ;
   sSet ← gets (λ w, _sIllustrationSet (this w)) ;
   o1 ← setSet oIllustration sSet ;
   o2 ← setMedia o1 (JSString sIdMedia) ;
   sType ← gets (λ w, _sIllustrationType (this w)) ;
   setType o2 sType ;;
   mret tt) w = Some (tt, set_illustration sIdMedia w).
Proof.
  intros Hw. set (c0 := Illustration undefined undefined undefined).
  destruct (lazy_child_typed "_illustration" c0 w Hw eq_refl) as (c & Ho & Hc & _ & _).
  unfold set_illustration. unfold_M. rewrite _getIllustration_run. fold c0.
  assert (Hs : _sIllustrationSet (this (lazy_child "_illustration" c0 w).2)
               = _sIllustrationSet (this w)
               ∧ _sIllustrationType (this (lazy_child "_illustration" c0 w).2)
                 = _sIllustrationType (this w)).
  { unfold lazy_child. by destruct (_ !! "_illustration"). }
  destruct Hs as [Hs Ht].
  destruct (lazy_child "_illustration" c0 w) as [o w1]. simpl in *.
  destruct c as [| | |s0 m0 t0]; try done.
  unfold setSet, setMedia, setType. rewrite Ho. simpl.
  rewrite lookup_insert_eq. simpl. rewrite lookup_insert_eq. simpl.
  rewrite Hs, Ht. do 2 f_equal. unfold with_objects. simpl.
  by rewrite !insert_insert_eq.
Qed.

Lemma set_illustration_typed (sIdMedia : string) (w : World) :
  typed w → typed (set_illustration sIdMedia w).
Proof.
  intros Hw. unfold set_illustration.
  set (c0 := Illustration undefined undefined undefined).
  destruct (lazy_child_typed "_illustration" c0 w Hw eq_refl) as (c & Ho & Hc & _ & Hw1).
  destruct (lazy_child "_illustration" c0 w) as [o w1]. simpl in *.
  eapply typed_update; eauto.
Qed.

Lemma set_illustration_classes (sIdMedia : string) (f : gset string → gset string)
    (w : World) :
  with_this (with_classes f) (set_illustration sIdMedia w)
  = set_illustration sIdMedia (with_this (with_classes f) w).
Proof.
  unfold set_illustration, lazy_child. simpl.
  by destruct (mAggregations (this w) !! "_illustration").
Qed.

(** A step for a key whose class is not the current media removes that
    class. *)
Lemma media_step_off (v sMedia c : string) (w : World) :
  prop MEDIA sMedia = JSString c → c ≠ "" → v ≠ c →
  media_step (JSString v) sMedia w
  = Some (tt, with_this (with_classes (λ cls, cls ∖ {[c]})) w).
Proof.
  intros Hp Hc Hv. unfold media_step. rewrite Hp.
  rewrite (bool_decide_eq_false_2 (JSString v = JSString c)) by congruence.
  by destruct c.
Qed.

(** The step for the key of the current media adds its class and, for
    a media other than [BASE], updates the illustration. *)
Lemma media_step_on (sMedia c : string) (w : World) :
  prop MEDIA sMedia = JSString c → c ≠ "" → JSString c ≠ MEDIA_BASE → typed w →
  media_step (JSString c) sMedia w
  = Some (tt, set_illustration (charAt0 sMedia ++ toLowerCase (slice1 sMedia))
                (with_this (with_classes (λ cls, cls ∪ {[c]})) w)).
Proof.
  intros Hp Hc Hb Hw. unfold media_step. rewrite Hp.
  rewrite (bool_decide_eq_true_2 (JSString c = JSString c)) by done.
  rewrite (bool_decide_eq_false_2 (JSString c = MEDIA_BASE)) by done.
  destruct c as [|a c]; [done|]. simpl.
  unfold mbind at 1, M_bind at 1. simpl.
  by rewrite illustration_chain_run.
Qed.

Lemma media_step_base (w : World) :
  media_step MEDIA_BASE "BASE" w
  = Some (tt, with_this (with_classes (λ cls, cls ∪ {["sapFIllustratedMessage-Base"]})) w).
Proof. reflexivity. Qed.

Lemma with_classes_ext (f g : gset string → gset string) (w : World) :
  f (aCustomStyleClasses (this w)) = g (aCustomStyleClasses (this w)) →
  with_this (with_classes f) w = with_this (with_classes g) w.
Proof. intros H. unfold with_this, with_classes. by rewrite H. Qed.

Lemma with_classes_fuse (f g : gset string → gset string) (w : World) :
  with_this (with_classes f) (with_this (with_classes g) w)
  = with_this (with_classes (f ∘ g)) w.
Proof. reflexivity. Qed.

Ltac four_way a b c d :=
  apply set_eq; intros x; set_unfold;
  destruct (decide (x = a)), (decide (x = b)), (decide (x = c)), (decide (x = d));
  subst; tauto.

Section only_one.
Context (a b c d : string) (cls : gset string).
Hypothesis (Hab : a ≠ b) (Hac : a ≠ c) (Had : a ≠ d).
Hypothesis (Hbc : b ≠ c) (Hbd : b ≠ d) (Hcd : c ≠ d).

Lemma only_first :
  (cls ∪ {[a]}) ∖ {[b]} ∖ {[c]} ∖ {[d]}
  = cls ∖ ({[a]} ∪ ({[b]} ∪ ({[c]} ∪ ({[d]} ∪ ∅)))) ∪ {[a]}.
Proof. four_way a b c d. Qed.

Lemma only_second :
  (cls ∖ {[a]} ∪ {[b]}) ∖ {[c]} ∖ {[d]}
  = cls ∖ ({[a]} ∪ ({[b]} ∪ ({[c]} ∪ ({[d]} ∪ ∅)))) ∪ {[b]}.
Proof. four_way a b c d. Qed.

Lemma only_third :
  (cls ∖ {[a]} ∖ {[b]} ∪ {[c]}) ∖ {[d]}
  = cls ∖ ({[a]} ∪ ({[b]} ∪ ({[c]} ∪ ({[d]} ∪ ∅)))) ∪ {[c]}.
Proof. four_way a b c d. Qed.

Lemma only_fourth :
  cls ∖ {[a]} ∖ {[b]} ∖ {[c]} ∪ {[d]}
  = cls ∖ ({[a]} ∪ ({[b]} ∪ ({[c]} ∪ ({[d]} ∪ ∅)))) ∪ {[d]}.
Proof. four_way a b c d. Qed.
End only_one.

Ltac media_steps :=
  rewrite _updateMediaStyle_steps;
  repeat (unfold mbind at 1, M_bind at 1;
          first [ rewrite media_step_base
                | erewrite media_step_off by (reflexivity || done)
                | erewrite media_step_on by (reflexivity || done) ]).

(** [_updateMediaStyle(m)] for each of the four media classes. *)
Lemma _updateMediaStyle_run (m : string) (w : World) :
  typed w → m ∈ media_classes →
  _updateMediaStyle (JSString m) w = Some (tt, media_applied m w).
Proof.
  intros Hw Hm. unfold media_classes in Hm. simpl in Hm.
  rewrite !elem_of_cons, elem_of_nil in Hm.
  destruct Hm as [->|[->|[->|[->|[]]]]].
  - fold MEDIA_BASE. media_steps. unfold MEDIA_BASE. simpl prop.
    unfold mret, M_ret, media_applied. eval_decide. do 2 f_equal.
    rewrite !with_classes_fuse. apply with_classes_ext.
    unfold only_media, media_classes. simpl. by apply only_first.
  - media_steps. unfold mret, M_ret, media_applied. eval_decide. do 2 f_equal.
    rewrite ?set_illustration_classes, !with_classes_fuse. f_equal.
    apply with_classes_ext. unfold only_media, media_classes. simpl.
    by apply only_second.
  - media_steps. unfold mret, M_ret, media_applied. eval_decide. do 2 f_equal.
    rewrite ?set_illustration_classes, !with_classes_fuse. f_equal.
    apply with_classes_ext. unfold only_media, media_classes. simpl.
    by apply only_third.
  - media_steps. unfold mret, M_ret, media_applied. eval_decide. do 2 f_equal.
    rewrite ?set_illustration_classes, !with_classes_fuse. f_equal.
    apply with_classes_ext. unfold only_media, media_classes. simpl.
    by apply only_fourth.
Qed.

(** ** What the media update leaves alone *)

Lemma skeleton_lazy_child (sName : string) (c0 : Child) (w : World) :
  skeleton (lazy_child sName c0 w).2 = skeleton w.
Proof. unfold lazy_child. by destruct (_ !! sName). Qed.

Lemma skeleton_set_illustration (sIdMedia : string) (w : World) :
  skeleton (set_illustration sIdMedia w) = skeleton w.
Proof.
  unfold set_illustration.
  pose proof (skeleton_lazy_child "_illustration"
                (Illustration undefined undefined undefined) w) as H.
  by destruct (lazy_child _ _ w).
Qed.

Lemma skeleton_media_applied (m : string) (w : World) :
  skeleton (media_applied m w) = skeleton w.
Proof.
  unfold media_applied.
  repeat case_bool_decide; by rewrite ?skeleton_set_illustration.
Qed.

Lemma set_illustration_classes_same (sIdMedia : string) (w : World) :
  aCustomStyleClasses (this (set_illustration sIdMedia w)) = aCustomStyleClasses (this w).
Proof.
  unfold set_illustration, lazy_child. by destruct (_ !! "_illustration").
Qed.

Lemma media_applied_classes (m : string) (w : World) :
  aCustomStyleClasses (this (media_applied m w))
  = only_media m (aCustomStyleClasses (this w)).
Proof.
  unfold media_applied.
  repeat case_bool_decide; by rewrite ?set_illustration_classes_same.
Qed.

Lemma media_applied_typed (m : string) (w : World) :
  typed w → typed (media_applied m w).
Proof.
  intros Hw. unfold media_applied.
  repeat case_bool_decide; try by apply set_illustration_typed.
  done.
Qed.

Lemma only_media_elem (m c : string) (cls : gset string) :
  c ∈ only_media m cls ↔ c = m ∨ (c ∈ cls ∧ c ∉ media_classes).
Proof.
  unfold only_media. rewrite elem_of_union, elem_of_difference, elem_of_singleton.
  rewrite elem_of_list_to_set. tauto.
Qed.

(** The illustration after [set_illustration]. *)
Lemma set_illustration_child (sIdMedia : string) (w : World) :
  typed w →
  ∃ o, mAggregations (this (set_illustration sIdMedia w)) !! "_illustration" = Some o
       ∧ objects (set_illustration sIdMedia w) !! o
         = Some (Illustration (_sIllustrationSet (this w)) (JSString sIdMedia)
                              (_sIllustrationType (this w))).
Proof.
  intros Hw. unfold set_illustration.
  set (c0 := Illustration undefined undefined undefined).
  destruct (lazy_child_typed "_illustration" c0 w Hw eq_refl) as (c & _ & _ & Ha & _).
  destruct (lazy_child "_illustration" c0 w) as [o w1]. simpl in *.
  exists o. by rewrite lookup_insert_eq.
Qed.

(** ** Break points *)

Lemma media_for_width_unique (n : Number) (m m' : string) :
  media_for_width n m → media_for_width n m' → m = m'.
Proof.
  intros H H'. destruct n as [|q| |];
    destruct H; destruct H'; simpl in *; try done; lra.
Qed.

Lemma num_le_width_le (n : Number) (k : Z) :
  num_le n k = true ↔ width_le n (inject_Z k).
Proof.
  destruct n as [|q| |]; simpl; try done.
  - apply Qle_bool_iff.
Qed.

Lemma num_le_width_gt (n : Number) (k : Z) :
  n ≠ NaN → num_le n k = false ↔ width_gt n (inject_Z k).
Proof.
  intros Hn. destruct n as [|q| |]; simpl; try done.
  destruct (Qle_bool q (inject_Z k)) eqn:E.
  - apply Qle_bool_iff in E. split; [done|]. intros Hlt. lra.
  - split; [|done]. intros _. apply Qnot_le_lt. intros Hle.
    apply Qle_bool_iff in Hle. congruence.
Qed.

Lemma positive_truthy (n : Number) : positive_width n → num_truthy n = true ∧ n ≠ NaN.
Proof.
  destruct n as [|q| |]; simpl; try done.
  intros Hq. split; [|done].
  destruct (Qeq_bool q 0) eqn:E; [|done].
  apply Qeq_bool_iff in E. lra.
Qed.

(** The branch [_updateMedia] takes for a width above zero. *)
Lemma _updateMedia_select (n : Number) :
  positive_width n →
  ∃ m, media_for_width n m ∧ m ∈ media_classes
       ∧ ∀ w, _updateMedia n w = _updateMediaStyle (JSString m) w.
Proof.
  intros Hn. destruct (positive_truthy n Hn) as [Ht Hnan].
  unfold _updateMedia. rewrite Ht. simpl negb. cbv iota.
  destruct (num_le n BREAK_POINTS_BASE) eqn:E1.
  { apply num_le_width_le in E1.
    exists "sapFIllustratedMessage-Base". split_and!; [by constructor|compute_done|done]. }
  apply num_le_width_gt in E1; [|done].
  destruct (num_le n BREAK_POINTS_SPOT) eqn:E2.
  { apply num_le_width_le in E2.
    exists "sapFIllustratedMessage-Spot". split_and!; [by constructor|compute_done|done]. }
  apply num_le_width_gt in E2; [|done].
  destruct (num_le n BREAK_POINTS_DIALOG) eqn:E3.
  { apply num_le_width_le in E3.
    exists "sapFIllustratedMessage-Dialog". split_and!; [by constructor|compute_done|done]. }
  apply num_le_width_gt in E3; [|done].
  exists "sapFIllustratedMessage-Scene". split_and!; [by constructor|compute_done|done].
Qed.

Lemma falsy_not_truthy (n : Number) : falsy_width n ↔ num_truthy n = false.
Proof.
  destruct n as [|q| |]; simpl; try done.
  rewrite <- Qeq_bool_iff. by destruct (Qeq_bool q 0).
Qed.

(** ** Splitting *)

Lemma split_segments (s : string) :
  split dash s
  = before_dash s :: match after_dash s with
                     | Some rest => split dash rest
                     | None => []
                     end.
Proof.
  induction s as [|c s IH]; simpl; [done|].
  case_bool_decide; [done|]. rewrite IH. by destruct (after_dash s).
Qed.

(** The segments, read off a value written as its parts. *)
Lemma segments_no_dash (s : string) :
  has_dash s = false → before_dash s = s ∧ after_dash s = None.
Proof.
  induction s as [|c s IH]; simpl; [done|].
  case_bool_decide; [done|]. simpl. intros Hd. destruct (IH Hd) as [-> ->]. done.
Qed.

Lemma segments_app (pre rest : string) :
  has_dash pre = false →
  before_dash (pre ++ String dash rest) = pre
  ∧ after_dash (pre ++ String dash rest) = Some rest.
Proof.
  induction pre as [|c pre IH]; simpl; [done|].
  case_bool_decide; [done|]. simpl. intros Hd. destruct (IH Hd) as [-> ->]. done.
Qed.

Lemma between_dashes_one (pre mid : string) :
  has_dash pre = false → has_dash mid = false →
  before_dash (pre ++ "-" ++ mid) = pre ∧ between_dashes (pre ++ "-" ++ mid) = Some mid.
Proof.
  intros Hp Hm. unfold between_dashes.
  change (pre ++ "-" ++ mid) with (pre ++ String dash mid).
  destruct (segments_app pre mid Hp) as [-> ->]. simpl.
  by destruct (segments_no_dash mid Hm) as [-> _].
Qed.

Lemma between_dashes_more (pre mid tail : string) :
  has_dash pre = false → has_dash mid = false →
  before_dash (pre ++ "-" ++ mid ++ "-" ++ tail) = pre
  ∧ between_dashes (pre ++ "-" ++ mid ++ "-" ++ tail) = Some mid.
Proof.
  intros Hp Hm. unfold between_dashes.
  change (pre ++ "-" ++ mid ++ "-" ++ tail)
    with (pre ++ String dash (mid ++ String dash tail)).
  destruct (segments_app pre (mid ++ String dash tail) Hp) as [-> ->]. simpl.
  by destruct (segments_app mid tail Hm) as [-> _].
Qed.

Lemma index_split_0 (s : string) : index (split dash s) 0 = JSString (before_dash s).
Proof. by rewrite split_segments. Qed.

Lemma index_split_1 (s : string) :
  index (split dash s) 1
  = match between_dashes s with
    | Some t => JSString t
    | None => undefined
    end.
Proof.
  rewrite split_segments. unfold between_dashes.
  destruct (after_dash s) as [rest|]; [|done].
  simpl. by rewrite split_segments.
Qed.

Lemma _updateInternalIllustrationSetAndType_run (s : string) (w : World) :
  _updateInternalIllustrationSetAndType s w
  = Some (tt, with_this (with_sIllustrationType (index (split dash s) 1))
                (with_this (with_sIllustrationSet (index (split dash s) 0)) w)).
Proof. reflexivity. Qed.

(** ** Resize handlers *)

Lemma size_name_Auto (z : IllustratedMessageSize) :
  bool_decide (size_name z = IllustratedMessageSize_Auto) = bool_decide (z = Auto).
Proof. by destruct z. Qed.

Lemma _detachResizeHandlers_run (w : World) :
  _detachResizeHandlers w = Some (tt, detach_content w).
Proof.
  unfold _detachResizeHandlers, _deRegisterResizeHandler, detach_content. unfold_M.
  by destruct (_ !! RESIZE_HANDLER_ID_CONTENT).
Qed.

Lemma _attachResizeHandlers_run (w : World) :
  _attachResizeHandlers w = Some (tt, attach_content w).
Proof.
  unfold _attachResizeHandlers, _registerResizeHandler, attach_content,
    getIllustrationSize, getDomRef.
  unfold_M. rewrite size_name_Auto.
  destruct (bool_decide (is_Some _) && bool_decide _); [|done].
  by destruct (_ !! RESIZE_HANDLER_ID_CONTENT).
Qed.

Lemma detach_content_detached (w : World) : handlers_ok w → detached (detach_content w).
Proof.
  intros Hw. unfold detach_content.
  destruct (mHandlerIds (this w) !! RESIZE_HANDLER_ID_CONTENT) as [id|] eqn:E.
  - split; simpl.
    + apply lookup_delete_eq.
    + intros [id' H]. simpl in H.
      destruct (decide (id = id')) as [->|Hne].
      * by rewrite lookup_delete_eq in H.
      * rewrite lookup_delete_ne in H by done.
        specialize (Hw _ _ H eq_refl). simpl in Hw. congruence.
  - split; [done|]. intros [id' H].
    specialize (Hw _ _ H eq_refl). simpl in Hw. congruence.
Qed.

Lemma detached_handlers_ok (w : World) : detached w → handlers_ok w.
Proof. intros [_ Hn] id l H ->. destruct Hn. by exists id. Qed.

Lemma attach_content_handlers_ok (w : World) :
  handlers_ok w → handlers_ok (attach_content w).
Proof.
  intros Hw. unfold attach_content.
  destruct (bool_decide _ && bool_decide _); [|done].
  destruct (mHandlerIds (this w) !! RESIZE_HANDLER_ID_CONTENT) as [id|] eqn:E; [done|].
  intros id' l H ->. simpl in *.
  destruct (decide (S (iResizeCounter w) = id')) as [<-|Hne].
  - by rewrite lookup_insert_eq.
  - rewrite lookup_insert_ne in H by done.
    specialize (Hw _ _ H eq_refl). simpl in Hw. congruence.
Qed.

(** From a detached control, [_attachResizeHandlers] registers exactly
    when there is a DOM reference and the size is [Auto]. *)
Lemma attach_content_registered (w : World) :
  detached w →
  resize_registered (attach_content w)
  ↔ illustrationSize (this w) = Auto ∧ is_Some (oDomRef (this w)).
Proof.
  intros [Hid Hn]. unfold attach_content. rewrite Hid.
  destruct (bool_decide (is_Some (oDomRef (this w)))) eqn:Ed;
    destruct (bool_decide (illustrationSize (this w) = Auto)) eqn:Ez; simpl;
    try apply bool_decide_eq_true in Ed; try apply bool_decide_eq_false in Ed;
    try apply bool_decide_eq_true in Ez; try apply bool_decide_eq_false in Ez;
    try tauto.
  split; [done|]. intros _. exists (S (iResizeCounter w)). simpl.
  apply lookup_insert_eq.
Qed.

(** ** Fields outside the children *)

Lemma skeleton_fields (w w' : World) :
  skeleton w' = skeleton w →
  description (this w') = description (this w)
  ∧ enableFormattedText (this w') = enableFormattedText (this w)
  ∧ illustrationSize (this w') = illustrationSize (this w)
  ∧ illustrationType (this w') = illustrationType (this w)
  ∧ title (this w') = title (this w)
  ∧ oDomRef (this w') = oDomRef (this w)
  ∧ _sIllustrationSet (this w') = _sIllustrationSet (this w)
  ∧ _sIllustrationType (this w') = _sIllustrationType (this w)
  ∧ mHandlerIds (this w') = mHandlerIds (this w)
  ∧ aResizeListeners w' = aResizeListeners w
  ∧ iResizeCounter w' = iResizeCounter w
  ∧ oResourceBundle w' = oResourceBundle w.
Proof.
  destruct w as [[] ? ? ? ?], w' as [[] ? ? ? ?]. unfold skeleton. simpl.
  intros H. injection H as -> -> -> -> -> -> -> -> -> -> -> ->. done.
Qed.

Lemma skeleton_handlers_ok (w w' : World) :
  skeleton w' = skeleton w → handlers_ok w → handlers_ok w'.
Proof.
  intros H Hw. apply skeleton_fields in H.
  destruct H as (_ & _ & _ & _ & _ & _ & _ & _ & Hh & Hl & _).
  unfold handlers_ok. by rewrite Hh, Hl.
Qed.

Lemma skeleton_detached (w w' : World) :
  skeleton w' = skeleton w → detached w → detached w'.
Proof.
  intros H Hw. apply skeleton_fields in H.
  destruct H as (_ & _ & _ & _ & _ & _ & _ & _ & Hh & Hl & _).
  unfold detached, resize_registered. by rewrite Hh, Hl.
Qed.

Lemma skeleton_cache_ok (w w' : World) :
  skeleton w' = skeleton w → cache_ok w → cache_ok w'.
Proof.
  intros H Hw. apply skeleton_fields in H.
  destruct H as (_ & _ & _ & Ht & _ & _ & Hs & Hy & _).
  unfold cache_ok, cached_for. by rewrite Ht, Hs, Hy.
Qed.

(** ** Totality of the media update *)

Lemma _updateMedia_total (n : Number) (w : World) :
  typed w →
  ∃ w', _updateMedia n w = Some (tt, w') ∧ typed w' ∧ skeleton w' = skeleton w.
Proof.
  intros Hw. unfold _updateMedia.
  destruct (negb (num_truthy n)); [by exists w|].
  destruct (num_le n BREAK_POINTS_BASE);
    [|destruct (num_le n BREAK_POINTS_SPOT);
      [|destruct (num_le n BREAK_POINTS_DIALOG)]];
    (eexists; split; [apply _updateMediaStyle_run; [done|compute_done]|];
     split; [by apply media_applied_typed|apply skeleton_media_applied]).
Qed.

Lemma _updateDomSize_total (w : World) :
  typed w →
  ∃ w', _updateDomSize w = Some (tt, w') ∧ typed w' ∧ skeleton w' = skeleton w.
Proof.
  intros Hw. unfold _updateDomSize, getDomRef, getIllustrationSize. unfold_M.
  destruct (oDomRef (this w)) as [d|]; [|by exists w].
  destruct (illustrationSize (this w)); [by apply _updateMedia_total|..];
    (eexists; split; [apply _updateMediaStyle_run; [done|compute_done]|];
     split; [by apply media_applied_typed|apply skeleton_media_applied]).
Qed.

Lemma onAfterRendering_run (w : World) :
  typed w →
  ∃ w1, _updateDomSize w = Some (tt, w1) ∧ typed w1 ∧ skeleton w1 = skeleton w
        ∧ onAfterRendering w = Some (tt, attach_content w1).
Proof.
  intros Hw. destruct (_updateDomSize_total w Hw) as (w1 & Hrun & Hw1 & Hs).
  exists w1. split_and!; try done.
  unfold onAfterRendering. unfold_M. rewrite Hrun. apply _attachResizeHandlers_run.
Qed.

(** ** Invariants of the control's life *)

Lemma setIllustrationType_run (s : string) (w : World) :
  setIllustrationType s w
  = Some (ThisRef,
          if bool_decide (illustrationType (this w) = s) then w
          else with_this (with_illustrationType s)
                 (with_this (with_sIllustrationType (index (split dash s) 1))
                    (with_this (with_sIllustrationSet (index (split dash s) 0)) w))).
Proof.
  unfold setIllustrationType, getIllustrationType. unfold_M. by case_bool_decide.
Qed.

Lemma getter_preserves (g : M nat) (o : nat) (w w' : World) :
  g ∈ [_getFormattedText; _getIllustration; _getText; _getDescription; _getTitle] →
  typed w → g w = Some (o, w') → typed w' ∧ skeleton w' = skeleton w.
Proof.
  assert (Hupd : ∀ sName c0 c',
    aggregation_type sName = Some (class_name c0) → class_name c' = class_name c0 →
    typed w →
    typed (with_objects <[(lazy_child sName c0 w).1 := c']> (lazy_child sName c0 w).2)
    ∧ skeleton (with_objects <[(lazy_child sName c0 w).1 := c']> (lazy_child sName c0 w).2)
      = skeleton w).
  { intros sName c0 c' Ht Hc Hw.
    destruct (lazy_child_typed sName c0 w Hw Ht) as (c & Ho & Hc0 & _ & Hw1).
    split; [eapply typed_update; eauto; congruence|].
    apply (skeleton_lazy_child sName c0 w). }
  assert (Hdesc : enableFormattedText (this w) = true ∧ _getDescription w = _getFormattedText w
                  ∨ enableFormattedText (this w) = false ∧ _getDescription w = _getText w).
  { unfold _getDescription, getEnableFormattedText. unfold_M.
    destruct (enableFormattedText (this w)); auto. }
  intros Hg Hw Hrun. rewrite !elem_of_cons, elem_of_nil in Hg.
  destruct Hg as [->|[->|[->|[->|[->|[]]]]]].
  - rewrite _getFormattedText_spec in Hrun by done. injection Hrun as <- <-.
    by apply Hupd.
  - rewrite _getIllustration_run in Hrun. injection Hrun as Hrun.
    destruct (lazy_child_typed "_illustration" (Illustration undefined undefined undefined)
                w Hw eq_refl) as (c & _ & _ & _ & Hw1).
    pose proof (skeleton_lazy_child "_illustration"
                  (Illustration undefined undefined undefined) w) as Hs.
    rewrite Hrun in Hw1, Hs. done.
  - rewrite _getText_spec in Hrun by done. injection Hrun as <- <-. by apply Hupd.
  - destruct Hdesc as [[_ Hd]|[_ Hd]]; rewrite Hd in Hrun.
    + rewrite _getFormattedText_spec in Hrun by done. injection Hrun as <- <-.
      by apply Hupd.
    + rewrite _getText_spec in Hrun by done. injection Hrun as <- <-. by apply Hupd.
  - rewrite _getTitle_spec in Hrun by done. injection Hrun as <- <-. by apply Hupd.
Qed.

Lemma detach_content_keeps (w : World) :
  (typed w → typed (detach_content w)) ∧ (cache_ok w → cache_ok (detach_content w)).
Proof. unfold detach_content. by destruct (_ !! RESIZE_HANDLER_ID_CONTENT). Qed.

Lemma attach_content_keeps (w : World) :
  (typed w → typed (attach_content w)) ∧ (cache_ok w → cache_ok (attach_content w)).
Proof.
  unfold attach_content. destruct (_ && _); [|done].
  by destruct (_ !! RESIZE_HANDLER_ID_CONTENT).
Qed.

Lemma hook_preserves (h : M unit) (w w' : World) :
  h ∈ [onBeforeRendering; onAfterRendering; exit; _updateDomSize] →
  typed w → handlers_ok w → cache_ok w → h w = Some (tt, w') →
  typed w' ∧ handlers_ok w' ∧ cache_ok w'.
Proof.
  intros Hh Hw Hr Hc Hrun. rewrite !elem_of_cons, elem_of_nil in Hh.
  assert (Hdetach : typed (detach_content w) ∧ handlers_ok (detach_content w)
                    ∧ cache_ok (detach_content w)).
  { split_and!; [by apply detach_content_keeps| |by apply detach_content_keeps].
    by apply detached_handlers_ok, detach_content_detached. }
  destruct Hh as [->|[->|[->|[->|[]]]]].
  - unfold onBeforeRendering in Hrun. rewrite _detachResizeHandlers_run in Hrun.
    by injection Hrun as <-.
  - destruct (onAfterRendering_run w Hw) as (w1 & _ & Hw1 & Hs & Hrun').
    rewrite Hrun' in Hrun. injection Hrun as <-. split_and!.
    + by apply attach_content_keeps.
    + by apply attach_content_handlers_ok, (skeleton_handlers_ok w).
    + by apply attach_content_keeps, (skeleton_cache_ok w).
  - unfold exit in Hrun. rewrite _detachResizeHandlers_run in Hrun.
    by injection Hrun as <-.
  - destruct (_updateDomSize_total w Hw) as (w1 & Hrun' & Hw1 & Hs).
    rewrite Hrun' in Hrun. injection Hrun as <-. split_and!; [done|..].
    + by apply (skeleton_handlers_ok w).
    + by apply (skeleton_cache_ok w).
Qed.

Lemma step_preserves (w w' : World) :
  step w w' → typed w ∧ handlers_ok w ∧ cache_ok w →
  typed w' ∧ handlers_ok w' ∧ cache_ok w'.
Proof.
  intros Hstep (Hw & Hr & Hc). destruct Hstep as [s w' Hrun|g o w' Hg Hrun|h w' Hh Hrun
    |n w' Hrun| | |ls n Hls].
  - rewrite setIllustrationType_run in Hrun. injection Hrun as <-.
    case_bool_decide; [done|]. split_and!; [done|done|].
    split; simpl; [apply index_split_0|apply index_split_1].
  - destruct (getter_preserves g o w w' Hg Hw Hrun) as [Hw' Hs].
    split_and!; [done|by apply (skeleton_handlers_ok w)|by apply (skeleton_cache_ok w)].
  - by apply (hook_preserves h w w').
  - destruct (_updateMedia_total n w Hw) as (w1 & Hrun' & Hw1 & Hs).
    unfold _onResize in Hrun. rewrite Hrun' in Hrun. injection Hrun as <-.
    split_and!; [done|by apply (skeleton_handlers_ok w)|by apply (skeleton_cache_ok w)].
  - done.
  - done.
  - split_and!; [done| |done].
    intros id l H ->. simpl in *. apply Hls in H. by apply (Hr _ _ H).
Qed.

(** In every world the control can be in, the stored children are live
    and of the declared class, the control's only registered resize
    listener is the one it keeps the id of, and the cache holds the
    segments of the [illustrationType] property. *)
Theorem reachable_invariant (w : World) :
  reachable w → typed w ∧ handlers_ok w ∧ cache_ok w.
Proof.
  induction 1 as [sType ob ls n b Hls|w w' _ IH Hstep].
  - split_and!.
    + intros sName o H. simpl in H. by rewrite lookup_empty in H.
    + intros id l H ->. simpl in H. by destruct (Hls id).
    + split; simpl; [apply index_split_0|apply index_split_1].
  - by apply (step_preserves w w').
Qed.

(** The example page after its first rendering is such a world. *)
Lemma example_rendered_reachable : reachable example_rendered.
Proof.
  unfold example_rendered.
  assert (Hafter : ∀ (A : Type) (c : M A) (w : World),
            is_Some (c w) → ∃ a, c w = Some (a, after c w)).
  { intros A c w [[a w'] H]. exists a. unfold after. by rewrite H. }
  set (w0 := after init example_page).
  assert (H0 : reachable w0).
  { apply (reachable_constructed "sapIllus-UnableToLoad"). intros id H.
    destruct (decide (id = 1)) as [->|Hne]; [done|].
    by rewrite lookup_singleton_ne in H. }
  set (w1 := after onBeforeRendering w0).
  assert (H1 : reachable w1).
  { destruct (Hafter _ onBeforeRendering w0) as [[] Hrun];
      [vm_compute; eexists; reflexivity|].
    eapply reachable_step; [exact H0|].
    eapply step_hook; [|exact Hrun]. apply list_elem_of_here. }
  set (w2 := after _getIllustration w1).
  assert (H2 : reachable w2).
  { destruct (Hafter _ _getIllustration w1) as [o Hrun];
      [vm_compute; eexists; reflexivity|].
    eapply reachable_step; [exact H1|].
    eapply step_getter; [|exact Hrun].
    apply list_elem_of_further, list_elem_of_here. }
  set (w3 := after _getTitle w2).
  assert (H3 : reachable w3).
  { destruct (Hafter _ _getTitle w2) as [o Hrun];
      [vm_compute; eexists; reflexivity|].
    eapply reachable_step; [exact H2|].
    eapply step_getter; [|exact Hrun].
    do 4 apply list_elem_of_further. apply list_elem_of_here. }
  set (w4 := after _getDescription w3).
  assert (H4 : reachable w4).
  { destruct (Hafter _ _getDescription w3) as [o Hrun];
      [vm_compute; eexists; reflexivity|].
    eapply reachable_step; [exact H3|].
    eapply step_getter; [|exact Hrun].
    do 3 apply list_elem_of_further. apply list_elem_of_here. }
  set (w5 := rendered (Some (mkDomRef (Finite 300))) w4).
  assert (H5 : reachable w5).
  { eapply reachable_step; [exact H4|]. apply step_rendered. }
  destruct (Hafter _ onAfterRendering w5) as [[] Hrun];
    [vm_compute; eexists; reflexivity|].
  eapply reachable_step; [exact H5|].
  eapply step_hook; [|exact Hrun].
  apply list_elem_of_further, list_elem_of_here.
Qed.

(** * The claims *)

(** C3. With an empty [description] property, [_getText] (and
    [_getFormattedText], which [_getDescription] selects when
    [enableFormattedText] is true) gives its child the resource-bundle
    text of the key ["IllustratedMessage_DESCRIPTION_"] followed by the
    cached illustration type; with a non-empty [description] the child
    is given that property value.  The child is the one stored in the
    aggregation. *)
Theorem description_text_displayed (w : World) :
  typed w →
  ∃ oText w1 oFormatted w2,
    _getText w = Some (oText, w1)
    ∧ _getFormattedText w = Some (oFormatted, w2)
    ∧ _getDescription w
      = (if enableFormattedText (this w) then _getFormattedText w else _getText w)
    ∧ mAggregations (this w1) !! "_text" = Some oText
    ∧ mAggregations (this w2) !! "_formattedText" = Some oFormatted
    ∧ (description (this w) = "" →
       let sDefault :=
         oResourceBundle w
           ("IllustratedMessage_DESCRIPTION_" ++ ToString (_sIllustrationType (this w))) in
       objects w1 !! oText = Some (Text sDefault)
       ∧ objects w2 !! oFormatted = Some (FormattedText sDefault))
    ∧ (description (this w) ≠ "" →
       objects w1 !! oText = Some (Text (JSString (description (this w))))
       ∧ objects w2 !! oFormatted
         = Some (FormattedText (JSString (description (this w))))).
Proof.
  intros Hw.
  destruct (lazy_child_typed "_text" (Text undefined) w Hw eq_refl) as (c1 & _ & _ & Ha1 & _).
  destruct (lazy_child_typed "_formattedText" (FormattedText undefined) w Hw eq_refl)
    as (c2 & _ & _ & Ha2 & _).
  eexists _, _, _, _.
  split; [by apply _getText_spec|].
  split; [by apply _getFormattedText_spec|].
  split; [by unfold _getDescription, getEnableFormattedText; unfold_M;
          destruct (enableFormattedText (this w))|].
  split; [done|]. split; [done|].
  simpl. rewrite !lookup_insert_eq. unfold description_text, js_concat, PREPENDS_DESCRIPTION.
  split; intros Hd; case_bool_decide; done.
Qed.

Lemma description_text_displayed_witness :
  typed example_rendered
  ∧ ∃ oText w1 oFormatted w2,
      _getText example_rendered = Some (oText, w1)
      ∧ _getFormattedText example_rendered = Some (oFormatted, w2)
      ∧ _getDescription example_rendered
        = (if enableFormattedText (this example_rendered)
           then _getFormattedText example_rendered else _getText example_rendered)
      ∧ mAggregations (this w1) !! "_text" = Some oText
      ∧ mAggregations (this w2) !! "_formattedText" = Some oFormatted
      ∧ (description (this example_rendered) = "" →
         let sDefault :=
           oResourceBundle example_rendered
             ("IllustratedMessage_DESCRIPTION_"
              ++ ToString (_sIllustrationType (this example_rendered))) in
         objects w1 !! oText = Some (Text sDefault)
         ∧ objects w2 !! oFormatted = Some (FormattedText sDefault))
      ∧ (description (this example_rendered) ≠ "" →
         objects w1 !! oText = Some (Text (JSString (description (this example_rendered))))
         ∧ objects w2 !! oFormatted
           = Some (FormattedText (JSString (description (this example_rendered))))).
Proof.
  split; [|apply (description_text_displayed example_rendered)]; compute_done.
Defined.

(** C4. With an empty [title] property, [_getTitle] gives its child the
    resource-bundle text of the key ["IllustratedMessage_TITLE_"]
    followed by the cached illustration type; with a non-empty [title]
    the child is given that property value.  The child is the one
    stored in the aggregation. *)
Theorem title_text_displayed (w : World) :
  typed w →
  ∃ oTitle w1,
    _getTitle w = Some (oTitle, w1)
    ∧ mAggregations (this w1) !! "_title" = Some oTitle
    ∧ (title (this w) = "" →
       objects w1 !! oTitle
       = Some (Title (oResourceBundle w
                        ("IllustratedMessage_TITLE_"
                         ++ ToString (_sIllustrationType (this w))))))
    ∧ (title (this w) ≠ "" →
       objects w1 !! oTitle = Some (Title (JSString (title (this w))))).
Proof.
  intros Hw.
  destruct (lazy_child_typed "_title" (Title undefined) w Hw eq_refl) as (c & _ & _ & Ha & _).
  eexists _, _.
  split; [by apply _getTitle_spec|]. split; [done|].
  simpl. rewrite !lookup_insert_eq. unfold title_text, js_concat, PREPENDS_TITLE.
  split; intros Hd; case_bool_decide; done.
Qed.

Lemma title_text_displayed_witness :
  typed example_rendered
  ∧ ∃ oTitle w1,
      _getTitle example_rendered = Some (oTitle, w1)
      ∧ objects w1 !! oTitle = Some (Title (JSString "Unable to load")).
Proof.
  split; [compute_done|].
  destruct (title_text_displayed example_rendered) as (o & w1 & Hrun & _ & Hd & _);
    [compute_done|].
  exists o, w1. split; [done|]. by apply Hd.
Defined.

(** C5. Each getter of a hidden aggregation creates a child only when
    the aggregation is empty and returns the stored child otherwise, so
    the second of two consecutive calls returns the object of the first
    and creates no further child. *)
Theorem hidden_getters_lazy (w : World) :
  typed w →
  lazy_getter_at _getFormattedText "_formattedText" w
  ∧ lazy_getter_at _getIllustration "_illustration" w
  ∧ lazy_getter_at _getText "_text" w
  ∧ lazy_getter_at _getTitle "_title" w.
Proof.
  intros Hw. split_and!.
  - by apply (lazy_getter_intro _ "_formattedText" (FormattedText undefined)
                (λ w, FormattedText (description_text w)) eq_refl (λ _, eq_refl)
                _getFormattedText_spec).
  - by apply _getIllustration_lazy.
  - by apply (lazy_getter_intro _ "_text" (Text undefined)
                (λ w, Text (description_text w)) eq_refl (λ _, eq_refl) _getText_spec).
  - by apply (lazy_getter_intro _ "_title" (Title undefined)
                (λ w, Title (title_text w)) eq_refl (λ _, eq_refl) _getTitle_spec).
Qed.

Lemma hidden_getters_lazy_witness :
  typed example_rendered
  ∧ lazy_getter_at _getFormattedText "_formattedText" example_rendered
  ∧ lazy_getter_at _getIllustration "_illustration" example_rendered
  ∧ lazy_getter_at _getText "_text" example_rendered
  ∧ lazy_getter_at _getTitle "_title" example_rendered.
Proof.
  split; [|apply (hidden_getters_lazy example_rendered)]; compute_done.
Defined.

(** C8. After [_updateMediaStyle(m)] for [m] one of the four media
    classes, the control carries [m] and none of the other three (its
    other style classes are kept); unless [m] is the Base class, the
    inner illustration has the cached set, the media name and the
    cached type, and for the Base class the children are left alone. *)
Theorem updateMediaStyle_effect (m : string) (w : World) :
  typed w → m ∈ media_classes →
  ∃ w',
    _updateMediaStyle (JSString m) w = Some (tt, w')
    ∧ (∀ c, c ∈ media_classes → c ∈ aCustomStyleClasses (this w') ↔ c = m)
    ∧ (∀ c, c ∉ media_classes →
         c ∈ aCustomStyleClasses (this w') ↔ c ∈ aCustomStyleClasses (this w))
    ∧ (JSString m ≠ MEDIA_BASE →
         ∃ o, mAggregations (this w') !! "_illustration" = Some o
              ∧ objects w' !! o
                = Some (Illustration (_sIllustrationSet (this w))
                          (JSString (media_name m)) (_sIllustrationType (this w))))
    ∧ (JSString m = MEDIA_BASE →
         objects w' = objects w ∧ mAggregations (this w') = mAggregations (this w)).
Proof.
  intros Hw Hm. exists (media_applied m w).
  split; [by apply _updateMediaStyle_run|].
  split; [|split].
  - intros c Hc. rewrite media_applied_classes, only_media_elem. tauto.
  - intros c Hc. rewrite media_applied_classes, only_media_elem.
    split; [intros [->|[? _]]; done | tauto].
  - unfold media_classes in Hm. simpl in Hm.
    rewrite !elem_of_cons, elem_of_nil in Hm.
    destruct Hm as [->|[->|[->|[->|[]]]]]; (split; [intros Hb|intros Hb]);
      try done; unfold media_applied, media_name; eval_decide;
      exact (set_illustration_child _ (with_this (with_classes _) w) Hw).
Qed.

Lemma updateMediaStyle_effect_witness :
  typed example_rendered
  ∧ "sapFIllustratedMessage-Dialog" ∈ media_classes
  ∧ ∃ w' o,
      _updateMediaStyle (JSString "sapFIllustratedMessage-Dialog") example_rendered
      = Some (tt, w')
      ∧ mAggregations (this w') !! "_illustration" = Some o
      ∧ objects w' !! o
        = Some (Illustration (JSString "sapIllus") (JSString "Dialog")
                             (JSString "UnableToLoad")).
Proof.
  split; [compute_done|]. split; [compute_done|].
  destruct (updateMediaStyle_effect "sapFIllustratedMessage-Dialog" example_rendered)
    as (w' & Hrun & _ & _ & Hi & _); [compute_done|compute_done|].
  destruct Hi as (o & Ha & Ho); [done|].
  by exists w', o.
Defined.

(** C1. For a width above zero, [_updateMedia] hands [_updateMediaStyle]
    the one media class the break points give: Base up to 259, Spot
    above 259 up to 319, Dialog above 319 up to 679, Scene above 679;
    afterwards the control carries that media class and no other. *)
Theorem updateMedia_selects (iWidth : Number) (w : World) :
  positive_width iWidth → typed w →
  ∃ m w',
    media_for_width iWidth m
    ∧ (∀ m', media_for_width iWidth m' → m' = m)
    ∧ _updateMedia iWidth w = _updateMediaStyle (JSString m) w
    ∧ _updateMedia iWidth w = Some (tt, w')
    ∧ (∀ c, c ∈ media_classes → c ∈ aCustomStyleClasses (this w') ↔ c = m).
Proof.
  intros Hpos Hw.
  destruct (_updateMedia_select iWidth Hpos) as (m & Hm & Hin & Hrun).
  exists m, (media_applied m w). split_and!; try done.
  - intros m' Hm'. by apply (media_for_width_unique iWidth).
  - rewrite Hrun. by apply _updateMediaStyle_run.
  - intros c Hc. rewrite media_applied_classes, only_media_elem. tauto.
Qed.

Lemma updateMedia_selects_witness :
  positive_width (Finite (2595 # 10))
  ∧ typed example_rendered
  ∧ ∃ w',
      _updateMedia (Finite (2595 # 10)) example_rendered = Some (tt, w')
      ∧ "sapFIllustratedMessage-Spot" ∈ aCustomStyleClasses (this w')
      ∧ "sapFIllustratedMessage-Base" ∉ aCustomStyleClasses (this w').
Proof.
  split; [reflexivity|]. split; [compute_done|].
  destruct (updateMedia_selects (Finite (2595 # 10)) example_rendered)
    as (m & w' & Hm & _ & _ & Hrun & Hcls); [reflexivity|compute_done|].
  assert (m = "sapFIllustratedMessage-Spot") as ->.
  { apply (media_for_width_unique (Finite (2595 # 10))); [done|].
    by apply width_spot. }
  exists w'. split; [done|]. split.
  - apply Hcls; [compute_done|done].
  - intros Hb. apply Hcls in Hb; [done|compute_done].
Defined.

(** C10. [_updateMedia] with a width of zero, or any width JavaScript
    takes for false, returns without changing anything: no style class
    is toggled and no child is touched. *)
Theorem updateMedia_falsy_unchanged (iWidth : Number) (w : World) :
  falsy_width iWidth → _updateMedia iWidth w = Some (tt, w).
Proof.
  intros H. apply falsy_not_truthy in H. unfold _updateMedia. by rewrite H.
Qed.

Lemma updateMedia_falsy_unchanged_witness :
  falsy_width (Finite 0)
  ∧ _updateMedia (Finite 0) example_rendered = Some (tt, example_rendered).
Proof.
  split; [reflexivity|].
  apply (updateMedia_falsy_unchanged (Finite 0) example_rendered). reflexivity.
Defined.

(** C2, as stated, fails: the cached illustration type is not always a
    segment of the value.  For a value without ["-"] there is no second
    segment and the cache holds [undefined]. *)
Lemma cached_type_not_always_a_segment :
  (∃ w', setIllustrationType "NoData" example_page = Some (ThisRef, w')
         ∧ _sIllustrationSet (this w') = JSString "NoData"
         ∧ _sIllustrationType (this w') = undefined)
  ∧ ¬ (∀ (s : string) (w : World),
         ∃ t w', setIllustrationType s w = Some (ThisRef, w')
                 ∧ _sIllustrationType (this w') = JSString t).
Proof.
  split.
  - eexists. split; [reflexivity|]. by split.
  - intros H. destruct (H "NoData" example_page) as (t & w' & Hrun & Ht).
    vm_compute in Hrun. injection Hrun as <-. discriminate Ht.
Qed.

(** C2, amended.  [init] caches the segments of the [illustrationType]
    property and [setIllustrationType] those of a value that differs
    from the property, so that a cache in step with the property stays
    so.  For a value [pre-mid] or [pre-mid-tail], where [pre] and [mid]
    hold no ["-"], the cached set is [pre] and the cached type is [mid]
    (["sapIllus"] and ["UnableToLoad"] for ["sapIllus-UnableToLoad"]);
    for a value without ["-"] the cached set is the value and the
    cached type is [undefined]. *)
Theorem illustration_set_and_type_cached (s : string) (w : World) :
  (∃ w', init w = Some (tt, w') ∧ cached_for (illustrationType (this w)) w')
  ∧ (∃ w', setIllustrationType s w = Some (ThisRef, w')
           ∧ illustrationType (this w') = s
           ∧ (s ≠ illustrationType (this w) → cached_for s w')
           ∧ (cache_ok w → cache_ok w'))
  ∧ (∀ w' pre mid tail,
       cached_for s w' → has_dash pre = false → has_dash mid = false →
       s = pre ++ "-" ++ mid ∨ s = pre ++ "-" ++ mid ++ "-" ++ tail →
       _sIllustrationSet (this w') = JSString pre
       ∧ _sIllustrationType (this w') = JSString mid)
  ∧ (∀ w',
       cached_for s w' → has_dash s = false →
       _sIllustrationSet (this w') = JSString s
       ∧ _sIllustrationType (this w') = undefined)
  ∧ (∀ w',
       cached_for "sapIllus-UnableToLoad" w' →
       _sIllustrationSet (this w') = JSString "sapIllus"
       ∧ _sIllustrationType (this w') = JSString "UnableToLoad").
Proof.
  split_and!.
  - eexists. split; [reflexivity|]. split; simpl.
    + apply index_split_0.
    + apply index_split_1.
  - rewrite setIllustrationType_run. eexists. split; [reflexivity|].
    case_bool_decide as Hs; [by subst s|]. simpl.
    assert (cached_for s
              (with_this (with_illustrationType s)
                 (with_this (with_sIllustrationType (index (split dash s) 1))
                    (with_this (with_sIllustrationSet (index (split dash s) 0)) w)))).
    { split; simpl; [apply index_split_0|apply index_split_1]. }
    done.
  - intros w' pre mid tail [Hset Htype] Hp Hm [->| ->].
    + destruct (between_dashes_one pre mid Hp Hm) as [H1 H2].
      by rewrite Hset, Htype, H1, H2.
    + destruct (between_dashes_more pre mid tail Hp Hm) as [H1 H2].
      by rewrite Hset, Htype, H1, H2.
  - intros w' [Hset Htype] Hs. unfold between_dashes in Htype.
    destruct (segments_no_dash s Hs) as [H1 H2].
    by rewrite Hset, Htype, H1, H2.
  - by intros w' [-> ->].
Qed.

(** C9. [setIllustrationType] with the value the property already has
    returns the control and leaves the world as it is: property, cache
    and aggregations included. *)
Theorem setIllustrationType_same_value (w : World) :
  setIllustrationType (illustrationType (this w)) w = Some (ThisRef, w).
Proof.
  unfold setIllustrationType, getIllustrationType. unfold_M.
  by rewrite bool_decide_eq_true_2.
Qed.

(** C6. With a DOM reference, [_updateDomSize] takes the media from the
    measured width, through [_updateMedia], exactly when
    [illustrationSize] is [Auto]; for any other size it applies the
    entry of [MEDIA] under the upper-cased name of the size, whatever
    the width, and the control then carries that class.  Without a DOM
    reference nothing changes. *)
Theorem updateDomSize_cases (w : World) :
  typed w →
  (∀ d, oDomRef (this w) = Some d →
     (illustrationSize (this w) = Auto →
        _updateDomSize w = _updateMedia (rect_width d) w)
     ∧ (illustrationSize (this w) ≠ Auto →
          ∃ m w',
            prop MEDIA (toUpperCase (size_name (illustrationSize (this w)))) = JSString m
            ∧ _updateDomSize w = _updateMediaStyle (JSString m) w
            ∧ _updateDomSize w = Some (tt, w')
            ∧ (∀ c, c ∈ media_classes → c ∈ aCustomStyleClasses (this w') ↔ c = m)))
  ∧ (oDomRef (this w) = None → _updateDomSize w = Some (tt, w)).
Proof.
  intros Hw. unfold _updateDomSize, getDomRef, getIllustrationSize. unfold_M.
  split.
  - intros d ->. split.
    + by intros ->.
    + intros Hz.
      assert (∃ m, m ∈ media_classes
                   ∧ prop MEDIA (toUpperCase (size_name (illustrationSize (this w))))
                     = JSString m
                   ∧ bool_decide (size_name (illustrationSize (this w))
                                  = IllustratedMessageSize_Auto) = false)
        as (m & Hm & Hp & Hb).
      { destruct (illustrationSize (this w)); [done|..];
          eexists; (split; [|split; reflexivity]); compute_done. }
      rewrite Hb, Hp. exists m, (media_applied m w). split_and!; try done.
      * by apply _updateMediaStyle_run.
      * intros c Hc. rewrite media_applied_classes, only_media_elem. tauto.
  - by intros ->.
Qed.

Lemma updateDomSize_cases_witness :
  typed example_rendered
  ∧ oDomRef (this example_rendered) = Some (mkDomRef (Finite 300))
  ∧ illustrationSize (this example_rendered) = Auto
  ∧ _updateDomSize example_rendered = _updateMedia (Finite 300) example_rendered.
Proof.
  split; [compute_done|]. split; [reflexivity|]. split; [reflexivity|].
  destruct (updateDomSize_cases example_rendered) as [H _]; [compute_done|].
  destruct (H (mkDomRef (Finite 300))) as [Hauto _]; [reflexivity|].
  by apply Hauto.
Defined.

(** C7. [onBeforeRendering] and [exit] deregister the content resize
    handler: afterwards no resize listener of the control is registered
    and the private field holds no id.  Called on a control that has
    been detached so (as it is when rendering has finished),
    [onAfterRendering] leaves a resize listener of the control
    registered exactly when [illustrationSize] is [Auto] and the
    control has a DOM reference. *)
Theorem resize_handler_lifecycle (w wr : World) :
  handlers_ok w → typed wr →
  (∃ w1, onBeforeRendering w = Some (tt, w1) ∧ detached w1)
  ∧ (∃ w3, exit w = Some (tt, w3) ∧ detached w3)
  ∧ (detached wr →
     ∃ w2, onAfterRendering wr = Some (tt, w2)
           ∧ (resize_registered w2
              ↔ illustrationSize (this wr) = Auto ∧ is_Some (oDomRef (this wr)))).
Proof.
  intros Hw Hwr. split_and!.
  - exists (detach_content w). split; [apply _detachResizeHandlers_run|].
    by apply detach_content_detached.
  - exists (detach_content w). split; [apply _detachResizeHandlers_run|].
    by apply detach_content_detached.
  - intros Hd. destruct (onAfterRendering_run wr Hwr) as (w1 & _ & _ & Hs & Hrun).
    exists (attach_content w1). split; [done|].
    rewrite attach_content_registered by by apply (skeleton_detached wr).
    apply skeleton_fields in Hs. destruct Hs as (_ & _ & -> & _ & _ & -> & _). done.
Qed.

Lemma resize_handler_lifecycle_witness :
  handlers_ok example_rendered
  ∧ resize_registered example_rendered
  ∧ ∃ w1 w2,
      onBeforeRendering example_rendered = Some (tt, w1)
      ∧ ¬ resize_registered w1
      ∧ onAfterRendering (rendered (Some (mkDomRef (Finite 700))) w1) = Some (tt, w2)
      ∧ resize_registered w2.
Proof.
  split; [compute_done|]. split; [by exists 2|].
  set (w1 := after onBeforeRendering example_rendered).
  destruct (resize_handler_lifecycle example_rendered
              (rendered (Some (mkDomRef (Finite 700))) w1))
    as ((w1' & Hrun1 & Hd1) & _ & Hafter); [compute_done|compute_done|].
  assert (w1' = w1) as -> by (vm_compute in Hrun1; by injection Hrun1 as <-).
  destruct Hafter as (w2 & Hrun2 & Hreg); [exact Hd1|].
  exists w1, w2. split_and!; try done.
  - by destruct Hd1.
  - apply Hreg. split; [reflexivity|by eexists].
Defined.

(** * Further properties of the control *)

(** ** The media update as a function *)

Lemma media_of_width_classes (n : Number) (m : string) :
  media_of_width n = Some m → m ∈ media_classes.
Proof.
  unfold media_of_width.
  repeat match goal with |- context [if ?b then _ else _] => destruct b end;
    intros [= <-]; compute_done.
Qed.

Lemma media_of_size_classes (z : IllustratedMessageSize) (m : string) :
  media_of_size z = Some m → m ∈ media_classes.
Proof. destruct z; intros [= <-]; compute_done. Qed.

Lemma media_of_dom_classes (w : World) (m : string) :
  media_of_dom w = Some m → m ∈ media_classes.
Proof.
  unfold media_of_dom. destruct (oDomRef (this w)); [|done].
  destruct (illustrationSize (this w));
    eauto using media_of_width_classes, media_of_size_classes.
Qed.

Lemma _updateMedia_applied (n : Number) (w : World) :
  typed w → _updateMedia n w = Some (tt, media_applied_opt (media_of_width n) w).
Proof.
  intros Hw. unfold _updateMedia, media_of_width.
  destruct (negb (num_truthy n)); [done|].
  destruct (num_le n BREAK_POINTS_BASE);
    [|destruct (num_le n BREAK_POINTS_SPOT);
      [|destruct (num_le n BREAK_POINTS_DIALOG)]];
    (apply _updateMediaStyle_run; [done|compute_done]).
Qed.

Lemma _updateDomSize_applied (w : World) :
  typed w → _updateDomSize w = Some (tt, media_applied_opt (media_of_dom w) w).
Proof.
  intros Hw. unfold _updateDomSize, media_of_dom, getDomRef, getIllustrationSize.
  unfold_M. destruct (oDomRef (this w)) as [d|]; [|done].
  destruct (illustrationSize (this w)); [by apply _updateMedia_applied|..];
    (apply _updateMediaStyle_run; [done|compute_done]).
Qed.

Lemma media_applied_opt_typed (om : option string) (w : World) :
  typed w → typed (media_applied_opt om w).
Proof. destruct om; [apply media_applied_typed|done]. Qed.

Lemma skeleton_media_applied_opt (om : option string) (w : World) :
  skeleton (media_applied_opt om w) = skeleton w.
Proof. destruct om; [apply skeleton_media_applied|done]. Qed.

(** ** Doing the same update twice *)

Lemma with_objects_fuse (f g : gmap nat Child → gmap nat Child) (w : World) :
  with_objects f (with_objects g w) = with_objects (f ∘ g) w.
Proof. reflexivity. Qed.

Lemma with_objects_ext (f g : gmap nat Child → gmap nat Child) (w : World) :
  f (objects w) = g (objects w) → with_objects f w = with_objects g w.
Proof. intros H. unfold with_objects. by rewrite H. Qed.

Lemma set_illustration_idem (sIdMedia : string) (w : World) :
  set_illustration sIdMedia (set_illustration sIdMedia w) = set_illustration sIdMedia w.
Proof.
  unfold set_illustration, lazy_child.
  destruct (mAggregations (this w) !! "_illustration") as [o|] eqn:E; simpl;
    rewrite ?E, ?lookup_insert_eq; simpl;
    unfold with_objects, with_this, with_aggregations; simpl; f_equal;
    apply insert_insert_eq.
Qed.

Lemma only_media_idem (m : string) (cls : gset string) :
  only_media m (only_media m cls) = only_media m cls.
Proof.
  apply set_eq. intros c. rewrite !only_media_elem. tauto.
Qed.

Lemma only_media_last (m1 m2 : string) (cls : gset string) :
  m1 ∈ media_classes → only_media m2 (only_media m1 cls) = only_media m2 cls.
Proof.
  intros Hm. apply set_eq. intros c. rewrite !only_media_elem.
  split; [|tauto]. intros [->|[[->|[? ?]] ?]]; tauto.
Qed.

Lemma media_applied_idem (m : string) (w : World) :
  media_applied m (media_applied m w) = media_applied m w.
Proof.
  unfold media_applied. repeat case_bool_decide;
    rewrite ?set_illustration_classes, ?set_illustration_idem, with_classes_fuse;
    try apply (f_equal (set_illustration _));
    apply with_classes_ext, only_media_idem.
Qed.

Lemma media_applied_opt_idem (om : option string) (w : World) :
  media_applied_opt om (media_applied_opt om w) = media_applied_opt om w.
Proof. destruct om; [apply media_applied_idem|done]. Qed.

Lemma media_applied_opt_classes (om : option string) (w : World) :
  aCustomStyleClasses (this (media_applied_opt om w))
  = match om with
    | Some m => only_media m (aCustomStyleClasses (this w))
    | None => aCustomStyleClasses (this w)
    end.
Proof. destruct om; [apply media_applied_classes|done]. Qed.

(** X1. Repeating a media update changes nothing: after
    [_updateMedia(w)] a second [_updateMedia(w)] with the same width
    (any number, also zero, [NaN] or an infinity) returns the world as
    it is, so resize events that report an unchanged width leave the
    control alone. *)
Theorem updateMedia_same_width_twice (iWidth : Number) (w : World) :
  typed w →
  ∃ w1, _updateMedia iWidth w = Some (tt, w1)
        ∧ _updateMedia iWidth w1 = Some (tt, w1)
        ∧ _onResize iWidth w1 = Some (tt, w1).
Proof.
  intros Hw. exists (media_applied_opt (media_of_width iWidth) w).
  assert (H2 : _updateMedia iWidth (media_applied_opt (media_of_width iWidth) w)
               = Some (tt, media_applied_opt (media_of_width iWidth) w)).
  { rewrite _updateMedia_applied by by apply media_applied_opt_typed.
    by rewrite media_applied_opt_idem. }
  split; [by apply _updateMedia_applied|]. by split.
Qed.

Lemma updateMedia_same_width_twice_witness :
  typed example_rendered
  ∧ ∃ w1, _updateMedia (Finite 500) example_rendered = Some (tt, w1)
          ∧ _updateMedia (Finite 500) w1 = Some (tt, w1)
          ∧ _onResize (Finite 500) w1 = Some (tt, w1).
Proof.
  split; [|apply (updateMedia_same_width_twice (Finite 500) example_rendered)];
    compute_done.
Defined.

(** X2. The media classes keep no trace of earlier widths: after any
    [_updateMedia(w1)], an [_updateMedia(w2)] with a width that is not
    taken for false leaves the control with the very style classes a
    single [_updateMedia(w2)] gives. *)
Theorem updateMedia_last_width_decides (iWidth1 iWidth2 : Number) (w : World) :
  typed w → ¬ falsy_width iWidth2 →
  ∃ w1 w2 w2',
    _updateMedia iWidth1 w = Some (tt, w1)
    ∧ _updateMedia iWidth2 w1 = Some (tt, w2)
    ∧ _updateMedia iWidth2 w = Some (tt, w2')
    ∧ aCustomStyleClasses (this w2) = aCustomStyleClasses (this w2').
Proof.
  intros Hw Hf.
  assert (∃ m2, media_of_width iWidth2 = Some m2) as [m2 Hm2].
  { unfold media_of_width. rewrite falsy_not_truthy in Hf.
    destruct (num_truthy iWidth2); [|done]. simpl.
    repeat match goal with |- context [if ?b then _ else _] => destruct b end; eauto. }
  eexists _, _, _. split; [by apply _updateMedia_applied|].
  split; [by apply _updateMedia_applied, media_applied_opt_typed|].
  split; [by apply _updateMedia_applied|].
  rewrite Hm2. simpl. rewrite !media_applied_classes, media_applied_opt_classes.
  destruct (media_of_width iWidth1) as [m1|] eqn:Hm1; [|done].
  apply only_media_last. by apply (media_of_width_classes iWidth1).
Qed.

Lemma updateMedia_last_width_decides_witness :
  typed example_rendered ∧ ¬ falsy_width (Finite 200)
  ∧ ∃ w1 w2,
      _updateMedia (Finite 1000) example_rendered = Some (tt, w1)
      ∧ _updateMedia (Finite 200) w1 = Some (tt, w2)
      ∧ elements (aCustomStyleClasses (this w2)) = ["sapFIllustratedMessage-Base"].
Proof.
  split; [compute_done|]. split; [by intros H|].
  destruct (updateMedia_last_width_decides (Finite 1000) (Finite 200) example_rendered)
    as (w1 & w2 & w2' & H1 & H2 & H2' & Hcls); [compute_done|by intros H|].
  exists w1, w2. split; [done|]. split; [done|]. rewrite Hcls.
  vm_compute in H2'. injection H2' as <-. by vm_compute.
Defined.

(** X3. A negative width (or minus infinity) is not taken for false and
    lies below the first break point: [_updateMedia] applies the Base
    media, and, as for every Base update, leaves the children alone. *)
Theorem updateMedia_negative_width (iWidth : Number) (w : World) :
  negative_width iWidth → typed w →
  ∃ w',
    _updateMedia iWidth w = Some (tt, w')
    ∧ _updateMedia iWidth w = _updateMediaStyle MEDIA_BASE w
    ∧ (∀ c, c ∈ media_classes →
         c ∈ aCustomStyleClasses (this w') ↔ c = "sapFIllustratedMessage-Base")
    ∧ objects w' = objects w
    ∧ mAggregations (this w') = mAggregations (this w).
Proof.
  intros Hn Hw.
  assert (Hsel : ∀ w0, _updateMedia iWidth w0 = _updateMediaStyle MEDIA_BASE w0).
  { intros w0. unfold _updateMedia.
    destruct iWidth as [|q| |]; try (by destruct Hn).
    change (q < 0)%Q in Hn. unfold num_truthy, num_le.
    destruct (Qeq_bool q 0) eqn:E; [apply Qeq_bool_iff in E; lra|].
    destruct (Qle_bool q (inject_Z BREAK_POINTS_BASE)) eqn:E1; [done|].
    assert (q <= 259)%Q as Hle by lra.
    apply Qle_bool_iff in Hle.
    change (inject_Z BREAK_POINTS_BASE) with 259%Q in E1. congruence. }
  exists (media_applied "sapFIllustratedMessage-Base" w). split_and!; try done.
  - rewrite Hsel. apply _updateMediaStyle_run; [done|compute_done].
  - intros c Hc. rewrite media_applied_classes, only_media_elem. tauto.
Qed.

Lemma updateMedia_negative_width_witness :
  negative_width (Finite (-5)) ∧ typed example_rendered
  ∧ ∃ w', _updateMedia (Finite (-5)) example_rendered = Some (tt, w')
          ∧ "sapFIllustratedMessage-Base" ∈ aCustomStyleClasses (this w')
          ∧ objects w' = objects example_rendered.
Proof.
  split; [reflexivity|]. split; [compute_done|].
  destruct (updateMedia_negative_width (Finite (-5)) example_rendered)
    as (w' & Hrun & _ & Hcls & Hob & _); [reflexivity|compute_done|].
  exists w'. split; [done|]. split; [|done]. apply Hcls; [compute_done|done].
Defined.

(** ** Resize handlers over the life of the control *)

Lemma detach_content_idem (w : World) :
  detach_content (detach_content w) = detach_content w.
Proof.
  unfold detach_content at 2.
  destruct (mHandlerIds (this w) !! RESIZE_HANDLER_ID_CONTENT) as [id|] eqn:E.
  - unfold detach_content. rewrite E. simpl. by rewrite lookup_delete_eq.
  - unfold detach_content. by rewrite E.
Qed.

Lemma attach_content_idem (w : World) :
  attach_content (attach_content w) = attach_content w.
Proof.
  unfold attach_content at 2.
  destruct (bool_decide (is_Some (oDomRef (this w)))
            && bool_decide (illustrationSize (this w) = Auto)) eqn:Ec.
  - destruct (mHandlerIds (this w) !! RESIZE_HANDLER_ID_CONTENT) as [id|] eqn:E.
    + unfold attach_content. by rewrite Ec, E.
    + unfold attach_content. rewrite Ec, E. simpl. by rewrite Ec, lookup_insert_eq.
  - unfold attach_content. by rewrite Ec.
Qed.

Lemma media_applied_attach (m : string) (w : World) :
  media_applied m (attach_content w) = attach_content (media_applied m w).
Proof.
  destruct (skeleton_fields w (media_applied m w) (skeleton_media_applied m w))
    as (_ & _ & Hz & _ & _ & Hd & _ & _ & Hh & Hl & Hn & _).
  unfold attach_content. rewrite Hz, Hd, Hh, Hl, Hn.
  destruct (bool_decide _ && bool_decide _); [|done].
  destruct (mHandlerIds (this w) !! RESIZE_HANDLER_ID_CONTENT); [done|].
  unfold media_applied. repeat case_bool_decide; try done;
    unfold set_illustration, lazy_child; simpl;
    by destruct (mAggregations (this w) !! "_illustration").
Qed.

Lemma media_of_dom_attach (w : World) : media_of_dom (attach_content w) = media_of_dom w.
Proof.
  unfold attach_content. destruct (_ && _); [|done].
  by destruct (_ !! RESIZE_HANDLER_ID_CONTENT).
Qed.

Lemma media_of_dom_skeleton (w w' : World) :
  skeleton w' = skeleton w → media_of_dom w' = media_of_dom w.
Proof.
  intros H. apply skeleton_fields in H.
  destruct H as (_ & _ & Hz & _ & _ & Hd & _). unfold media_of_dom. by rewrite Hz, Hd.
Qed.

Lemma onAfterRendering_applied (w : World) :
  typed w →
  onAfterRendering w
  = Some (tt, attach_content (media_applied_opt (media_of_dom w) w)).
Proof.
  intros Hw. unfold onAfterRendering. unfold_M.
  rewrite _updateDomSize_applied by done. apply _attachResizeHandlers_run.
Qed.

(** X4. [onAfterRendering] called again, without a rendering in
    between, changes nothing: no second resize listener is registered
    (the id kept in the private field guards the registration) and the
    media update repeats itself. *)
Theorem onAfterRendering_twice (w : World) :
  typed w →
  ∃ w1, onAfterRendering w = Some (tt, w1) ∧ onAfterRendering w1 = Some (tt, w1).
Proof.
  intros Hw. set (om := media_of_dom w).
  exists (attach_content (media_applied_opt om w)).
  split; [by apply onAfterRendering_applied|].
  rewrite onAfterRendering_applied
    by by apply attach_content_keeps, media_applied_opt_typed.
  rewrite media_of_dom_attach,
    (media_of_dom_skeleton w _ (skeleton_media_applied_opt om w)).
  fold om. do 2 f_equal. destruct om as [m|]; simpl.
  - by rewrite media_applied_attach, media_applied_idem, attach_content_idem.
  - apply attach_content_idem.
Qed.

Lemma onAfterRendering_twice_witness :
  typed example_rendered
  ∧ onAfterRendering example_rendered = Some (tt, example_rendered).
Proof.
  split; [compute_done|].
  destruct (onAfterRendering_twice
              (rendered (Some (mkDomRef (Finite 300)))
                 (after _getDescription
                    (after _getTitle
                       (after _getIllustration
                          (after onBeforeRendering (after init example_page)))))))
    as (w1 & H1 & H2); [compute_done|].
  assert (w1 = example_rendered) as ->; [|exact H2].
  unfold example_rendered, after at 1. by rewrite H1.
Defined.

(** X5. Deregistering with nothing registered is a no-op: whatever the
    world, after [exit] (or [onBeforeRendering]) a further [exit] or
    [onBeforeRendering] returns the world as it is. *)
Theorem exit_twice (w : World) :
  ∃ w1, exit w = Some (tt, w1)
        ∧ onBeforeRendering w = Some (tt, w1)
        ∧ exit w1 = Some (tt, w1)
        ∧ onBeforeRendering w1 = Some (tt, w1).
Proof.
  exists (detach_content w). unfold exit, onBeforeRendering.
  rewrite !_detachResizeHandlers_run, detach_content_idem. done.
Qed.

Lemma skeleton_handler_live (w w' : World) :
  skeleton w' = skeleton w → handler_live w → handler_live w'.
Proof.
  intros H Hw. apply skeleton_fields in H.
  destruct H as (_ & _ & _ & _ & _ & _ & _ & _ & Hh & Hl & _).
  unfold handler_live. by rewrite Hh, Hl.
Qed.

Lemma detach_content_handler_live (w : World) : handler_live (detach_content w).
Proof.
  unfold detach_content, handler_live.
  destruct (mHandlerIds (this w) !! RESIZE_HANDLER_ID_CONTENT) as [id|] eqn:E.
  - simpl. intros id' H. by rewrite lookup_delete_eq in H.
  - intros id' H. congruence.
Qed.

Lemma attach_content_handler_live (w : World) :
  handler_live w → handler_live (attach_content w).
Proof.
  intros Hw. unfold attach_content.
  destruct (_ && _); [|done].
  destruct (mHandlerIds (this w) !! RESIZE_HANDLER_ID_CONTENT) as [id|] eqn:E; [done|].
  intros id' H. simpl in *. rewrite lookup_insert_eq in H. injection H as <-.
  apply lookup_insert_eq.
Qed.

Lemma step_handler_live (w w' : World) :
  step w w' → typed w → handler_live w → handler_live w'.
Proof.
  intros Hstep Hw Hl. destruct Hstep as [s w' Hrun|g o w' Hg Hrun|h w' Hh Hrun
    |n w' Hrun| | |ls n Hls].
  - rewrite setIllustrationType_run in Hrun. injection Hrun as <-.
    by case_bool_decide.
  - destruct (getter_preserves g o w w' Hg Hw Hrun) as [_ Hs].
    by apply (skeleton_handler_live w).
  - rewrite !elem_of_cons, elem_of_nil in Hh.
    destruct Hh as [->|[->|[->|[->|[]]]]].
    + unfold onBeforeRendering in Hrun. rewrite _detachResizeHandlers_run in Hrun.
      injection Hrun as <-. apply detach_content_handler_live.
    + rewrite onAfterRendering_applied in Hrun by done. injection Hrun as <-.
      apply attach_content_handler_live,
        (skeleton_handler_live w _ (skeleton_media_applied_opt _ w)), Hl.
    + unfold exit in Hrun. rewrite _detachResizeHandlers_run in Hrun.
      injection Hrun as <-. apply detach_content_handler_live.
    + rewrite _updateDomSize_applied in Hrun by done. injection Hrun as <-.
      apply (skeleton_handler_live w _ (skeleton_media_applied_opt _ w)), Hl.
  - unfold _onResize in Hrun. rewrite _updateMedia_applied in Hrun by done.
    injection Hrun as <-.
    apply (skeleton_handler_live w _ (skeleton_media_applied_opt _ w)), Hl.
  - done.
  - done.
  - intros id H. simpl in *. by apply Hls, Hl.
Qed.

Lemma reachable_handler_live (w : World) : reachable w → handler_live w.
Proof.
  induction 1 as [sType ob ls n b Hls|w w' Hreach IH Hstep].
  - intros id H. simpl in H. by rewrite lookup_empty in H.
  - apply (step_handler_live w w' Hstep); [|done].
    by apply reachable_invariant.
Qed.

(** X6. Through the whole life of the control, at most one resize
    listener of it is registered, the id kept in its private field is
    the id of that listener, and a listener of the control is
    registered exactly when the field holds an id: no listener of the
    control is ever lost track of, and no id is kept of a listener that
    is gone. *)
Theorem resize_listener_tracked (w : World) :
  reachable w →
  (∀ id1 id2, aResizeListeners w !! id1 = Some OwnOnResize →
              aResizeListeners w !! id2 = Some OwnOnResize → id1 = id2)
  ∧ (∀ id, mHandlerIds (this w) !! RESIZE_HANDLER_ID_CONTENT = Some id →
           aResizeListeners w !! id = Some OwnOnResize)
  ∧ (resize_registered w ↔ is_Some (mHandlerIds (this w) !! RESIZE_HANDLER_ID_CONTENT)).
Proof.
  intros Hreach. destruct (reachable_invariant w Hreach) as (_ & Hok & _).
  pose proof (reachable_handler_live w Hreach) as Hlive.
  split_and!.
  - intros id1 id2 H1 H2.
    pose proof (Hok _ _ H1 eq_refl) as E1. pose proof (Hok _ _ H2 eq_refl) as E2.
    simpl in *. congruence.
  - exact Hlive.
  - split.
    + intros [id H]. exists id. by apply (Hok _ _ H).
    + intros [id H]. exists id. by apply Hlive.
Qed.

Lemma resize_listener_tracked_witness :
  reachable example_rendered
  ∧ (∀ id, aResizeListeners example_rendered !! id = Some OwnOnResize → id = 2)
  ∧ mHandlerIds (this example_rendered) !! RESIZE_HANDLER_ID_CONTENT = Some 2.
Proof.
  split; [exact example_rendered_reachable|].
  destruct (resize_listener_tracked example_rendered example_rendered_reachable)
    as (Huniq & _ & _).
  split; [|reflexivity].
  intros id H. apply (Huniq id 2 H). reflexivity.
Defined.

(** X7. [exit] and [onBeforeRendering] deregister the control's own
    listener and nothing else: afterwards the registry holds exactly the
    listeners it held before, without the control's. *)
Theorem exit_keeps_other_listeners (w : World) :
  reachable w →
  ∃ w1, exit w = Some (tt, w1)
        ∧ onBeforeRendering w = Some (tt, w1)
        ∧ ∀ id, aResizeListeners w1 !! id
                = match aResizeListeners w !! id with
                  | Some OwnOnResize => None
                  | other => other
                  end.
Proof.
  intros Hreach. destruct (reachable_invariant w Hreach) as (_ & Hok & _).
  pose proof (reachable_handler_live w Hreach) as Hlive.
  exists (detach_content w). unfold exit, onBeforeRendering.
  rewrite _detachResizeHandlers_run. split; [done|]. split; [done|].
  intros id. unfold detach_content.
  destruct (mHandlerIds (this w) !! RESIZE_HANDLER_ID_CONTENT) as [id0|] eqn:E; simpl.
  - destruct (decide (id0 = id)) as [->|Hne].
    + rewrite lookup_delete_eq. by rewrite (Hlive _ E).
    + rewrite lookup_delete_ne by done.
      destruct (aResizeListeners w !! id) as [[|n]|] eqn:El; try done.
      pose proof (Hok _ _ El eq_refl) as E'. simpl in E'. congruence.
  - destruct (aResizeListeners w !! id) as [[|n]|] eqn:El; try done.
    pose proof (Hok _ _ El eq_refl) as E'. simpl in E'. congruence.
Qed.

Lemma exit_keeps_other_listeners_witness :
  reachable example_rendered
  ∧ ∃ w1, exit example_rendered = Some (tt, w1)
          ∧ aResizeListeners w1 !! 1 = Some (Foreign 7)
          ∧ aResizeListeners w1 !! 2 = None.
Proof.
  split; [exact example_rendered_reachable|].
  destruct (exit_keeps_other_listeners example_rendered example_rendered_reachable)
    as (w1 & Hrun & _ & Hls).
  exists w1. split; [done|]. by rewrite !Hls.
Defined.

(** ** What a getter writes *)

Lemma with_objects_id (w : World) (o : nat) (c : Child) :
  objects w !! o = Some c → with_objects <[o := c]> w = w.
Proof.
  intros H. destruct w as [t ob ls n b]. unfold with_objects. simpl in *.
  by rewrite insert_id.
Qed.

(** Every getter takes the lazy child of its aggregation and gives it a
    value of the same class. *)
Lemma hidden_getter_form (g : M nat) (sName : string) (o : nat) (w w' : World) :
  (g, sName) ∈ hidden_getters → typed w → g w = Some (o, w') →
  ∃ c0 c',
    aggregation_type sName = Some (class_name c0)
    ∧ class_name c' = class_name c0
    ∧ o = (lazy_child sName c0 w).1
    ∧ w' = with_objects <[o := c']> (lazy_child sName c0 w).2.
Proof.
  intros Hg Hw Hrun. unfold hidden_getters in Hg.
  rewrite !elem_of_cons, elem_of_nil in Hg.
  destruct Hg as [[= -> ->]|[[= -> ->]|[[= -> ->]|[[= -> ->]|[]]]]].
  - rewrite _getFormattedText_spec in Hrun by done. injection Hrun as <- <-.
    by exists (FormattedText undefined), (FormattedText (description_text w)).
  - rewrite _getIllustration_run in Hrun. injection Hrun as Hrun.
    set (c0 := Illustration undefined undefined undefined) in *.
    destruct (lazy_child_typed "_illustration" c0 w Hw eq_refl) as (c & Ho & Hc & _ & _).
    exists c0, c. rewrite Hrun in *. simpl in *. split_and!; try done.
    by rewrite with_objects_id.
  - rewrite _getText_spec in Hrun by done. injection Hrun as <- <-.
    by exists (Text undefined), (Text (description_text w)).
  - rewrite _getTitle_spec in Hrun by done. injection Hrun as <- <-.
    by exists (Title undefined), (Title (title_text w)).
Qed.

Lemma getter_form (g : M nat) (o : nat) (w w' : World) :
  g ∈ [_getFormattedText; _getIllustration; _getText; _getDescription; _getTitle] →
  typed w → g w = Some (o, w') →
  ∃ sName c0 c',
    aggregation_type sName = Some (class_name c0)
    ∧ class_name c' = class_name c0
    ∧ o = (lazy_child sName c0 w).1
    ∧ w' = with_objects <[o := c']> (lazy_child sName c0 w).2.
Proof.
  intros Hg Hw Hrun. rewrite !elem_of_cons, elem_of_nil in Hg.
  assert (Hdesc : _getDescription w = _getFormattedText w ∨ _getDescription w = _getText w).
  { unfold _getDescription, getEnableFormattedText. unfold_M.
    destruct (enableFormattedText (this w)); auto. }
  destruct Hg as [->|[->|[->|[->|[->|[]]]]]].
  - exists "_formattedText". apply (hidden_getter_form _getFormattedText); try done.
    apply list_elem_of_here.
  - exists "_illustration". apply (hidden_getter_form _getIllustration); try done.
    apply list_elem_of_further, list_elem_of_here.
  - exists "_text". apply (hidden_getter_form _getText); try done.
    do 2 apply list_elem_of_further. apply list_elem_of_here.
  - destruct Hdesc as [Hd|Hd]; rewrite Hd in Hrun.
    + exists "_formattedText". apply (hidden_getter_form _getFormattedText); try done.
      apply list_elem_of_here.
    + exists "_text". apply (hidden_getter_form _getText); try done.
      do 2 apply list_elem_of_further. apply list_elem_of_here.
  - exists "_title". apply (hidden_getter_form _getTitle); try done.
    do 3 apply list_elem_of_further. apply list_elem_of_here.
Qed.

Lemma lazy_child_frame (sName : string) (c0 : Child) (w : World) :
  (∀ n, n ≠ sName →
     mAggregations (this (lazy_child sName c0 w).2) !! n = mAggregations (this w) !! n)
  ∧ (∀ o', o' ≠ (lazy_child sName c0 w).1 →
       objects (lazy_child sName c0 w).2 !! o' = objects w !! o')
  ∧ aCustomStyleClasses (this (lazy_child sName c0 w).2) = aCustomStyleClasses (this w).
Proof.
  unfold lazy_child. destruct (mAggregations (this w) !! sName) as [o|] eqn:E; simpl.
  - done.
  - split_and!; [|intros o' Ho'|done].
    + intros n Hn. by rewrite lookup_insert_ne.
    + by rewrite lookup_insert_ne.
Qed.

(** X8. A getter of a hidden aggregation writes its own aggregation and
    its own child only: every other aggregation, every other child
    object, the style classes and everything outside the children
    (properties, cache, DOM reference, resize handlers) are as
    before. *)
Theorem getter_writes_own_child_only (g : M nat) (sName : string) (o : nat)
    (w w' : World) :
  (g, sName) ∈ hidden_getters → typed w → g w = Some (o, w') →
  (∀ n, n ≠ sName → mAggregations (this w') !! n = mAggregations (this w) !! n)
  ∧ (∀ o', o' ≠ o → objects w' !! o' = objects w !! o')
  ∧ aCustomStyleClasses (this w') = aCustomStyleClasses (this w)
  ∧ skeleton w' = skeleton w.
Proof.
  intros Hg Hw Hrun.
  destruct (hidden_getter_form g sName o w w' Hg Hw Hrun) as (c0 & c' & _ & _ & Ho & ->).
  destruct (lazy_child_frame sName c0 w) as (Ha & Hob & Hcls).
  split_and!.
  - exact Ha.
  - intros o' Ho'. simpl. rewrite lookup_insert_ne by done. apply Hob. by rewrite <- Ho.
  - exact Hcls.
  - apply (skeleton_lazy_child sName c0 w).
Qed.

Lemma getter_writes_own_child_only_witness :
  (_getText, "_text") ∈ hidden_getters ∧ typed example_rendered
  ∧ ∃ o w', _getText example_rendered = Some (o, w')
            ∧ mAggregations (this w') !! "_title"
              = mAggregations (this example_rendered) !! "_title"
            ∧ aCustomStyleClasses (this w') = aCustomStyleClasses (this example_rendered).
Proof.
  split; [do 2 apply list_elem_of_further; apply list_elem_of_here|].
  split; [compute_done|].
  destruct (_getText example_rendered) as [[o w']|] eqn:Hrun; [|by vm_compute in Hrun].
  destruct (getter_writes_own_child_only _getText "_text" o example_rendered w')
    as (Ha & _ & Hcls & _);
    [do 2 apply list_elem_of_further; apply list_elem_of_here|compute_done|done|].
  exists o, w'. split; [done|]. split; [by apply Ha|done].
Defined.

(** ** Children and style classes over the life of the control *)

Lemma children_kept_refl (w : World) : children_kept w w.
Proof. by intros sName o H. Qed.

Lemma children_kept_same (w w' : World) :
  mAggregations (this w') = mAggregations (this w) → objects w' = objects w →
  children_kept w w'.
Proof. intros Ha Ho sName o H. by rewrite Ha, Ho. Qed.

Lemma children_kept_trans (w1 w2 w3 : World) :
  children_kept w1 w2 → children_kept w2 w3 → children_kept w1 w3.
Proof.
  intros H12 H23 sName o H. destruct (H12 _ _ H) as [H2 Hc2].
  destruct (H23 _ _ H2) as [H3 Hc3]. split; [done|]. by rewrite Hc3.
Qed.

Lemma children_kept_lazy_update (sName : string) (c0 c' : Child) (w : World) :
  typed w → aggregation_type sName = Some (class_name c0) →
  class_name c' = class_name c0 →
  children_kept w
    (with_objects <[(lazy_child sName c0 w).1 := c']> (lazy_child sName c0 w).2).
Proof.
  intros Hw Ht Hc n o H.
  destruct (typed_lookup w n o Hw H) as (c & Ho & Hn).
  unfold lazy_child. destruct (mAggregations (this w) !! sName) as [o1|] eqn:E; simpl.
  - split; [done|]. destruct (decide (o1 = o)) as [->|Hne].
    + rewrite lookup_insert_eq, Ho. simpl. f_equal.
      destruct (typed_lookup w sName o Hw E) as (c1 & Ho1 & Hn1). congruence.
    + by rewrite lookup_insert_ne.
  - assert (fresh (dom (objects w)) ≠ o) as Hne.
    { intros <-. by rewrite fresh_object_None in Ho. }
    split.
    + rewrite lookup_insert_ne; [done|]. congruence.
    + by rewrite !lookup_insert_ne.
Qed.

Lemma children_kept_set_illustration (sIdMedia : string) (w : World) :
  typed w → children_kept w (set_illustration sIdMedia w).
Proof.
  intros Hw. unfold set_illustration.
  pose proof (children_kept_lazy_update "_illustration"
                (Illustration undefined undefined undefined)
                (Illustration (_sIllustrationSet (this w)) (JSString sIdMedia)
                   (_sIllustrationType (this w))) w Hw eq_refl eq_refl) as H.
  by destruct (lazy_child _ _ w).
Qed.

Lemma children_kept_media_applied_opt (om : option string) (w : World) :
  typed w → children_kept w (media_applied_opt om w).
Proof.
  intros Hw. destruct om as [m|]; [|apply children_kept_refl]. simpl.
  unfold media_applied. repeat case_bool_decide;
    try exact (children_kept_set_illustration _ (with_this (with_classes _) w) Hw).
  by apply children_kept_same.
Qed.

(** What a step does to the style classes: nothing, or one media
    update. *)
Lemma step_classes (w w' : World) :
  step w w' → typed w →
  aCustomStyleClasses (this w') = aCustomStyleClasses (this w)
  ∨ ∃ m, m ∈ media_classes
         ∧ aCustomStyleClasses (this w') = only_media m (aCustomStyleClasses (this w)).
Proof.
  intros Hstep Hw.
  assert (Hopt : ∀ om w0, (∀ m, om = Some m → m ∈ media_classes) →
    aCustomStyleClasses (this w0) = aCustomStyleClasses (this (media_applied_opt om w)) →
    aCustomStyleClasses (this w0) = aCustomStyleClasses (this w)
    ∨ ∃ m, m ∈ media_classes
           ∧ aCustomStyleClasses (this w0) = only_media m (aCustomStyleClasses (this w))).
  { intros om w0 Hom ->. rewrite media_applied_opt_classes.
    destruct om as [m|]; [right; exists m; eauto|by left]. }
  destruct Hstep as [s w' Hrun|g o w' Hg Hrun|h w' Hh Hrun|n w' Hrun| | |ls n Hls].
  - rewrite setIllustrationType_run in Hrun. injection Hrun as <-.
    left. by case_bool_decide.
  - destruct (getter_form g o w w' Hg Hw Hrun) as (sName & c0 & c' & _ & _ & _ & ->).
    left. apply (lazy_child_frame sName c0 w).
  - rewrite !elem_of_cons, elem_of_nil in Hh.
    destruct Hh as [->|[->|[->|[->|[]]]]].
    + unfold onBeforeRendering in Hrun. rewrite _detachResizeHandlers_run in Hrun.
      injection Hrun as <-. left. unfold detach_content.
      by destruct (_ !! RESIZE_HANDLER_ID_CONTENT).
    + rewrite onAfterRendering_applied in Hrun by done. injection Hrun as <-.
      apply (Hopt (media_of_dom w)); [apply media_of_dom_classes|].
      unfold attach_content. destruct (_ && _); [|done].
      by destruct (_ !! RESIZE_HANDLER_ID_CONTENT).
    + unfold exit in Hrun. rewrite _detachResizeHandlers_run in Hrun.
      injection Hrun as <-. left. unfold detach_content.
      by destruct (_ !! RESIZE_HANDLER_ID_CONTENT).
    + rewrite _updateDomSize_applied in Hrun by done. injection Hrun as <-.
      by apply (Hopt (media_of_dom w)); [apply media_of_dom_classes|].
  - unfold _onResize in Hrun. rewrite _updateMedia_applied in Hrun by done.
    injection Hrun as <-.
    by apply (Hopt (media_of_width n)); [apply media_of_width_classes|].
  - by left.
  - by left.
  - by left.
Qed.

Lemma step_children_kept (w w' : World) :
  step w w' → typed w → children_kept w w'.
Proof.
  intros Hstep Hw.
  destruct Hstep as [s w' Hrun|g o w' Hg Hrun|h w' Hh Hrun|n w' Hrun| | |ls n Hls].
  - rewrite setIllustrationType_run in Hrun. injection Hrun as <-.
    case_bool_decide; by apply children_kept_same.
  - destruct (getter_form g o w w' Hg Hw Hrun) as (sName & c0 & c' & Ht & Hc & -> & ->).
    by apply children_kept_lazy_update.
  - rewrite !elem_of_cons, elem_of_nil in Hh.
    destruct Hh as [->|[->|[->|[->|[]]]]].
    + unfold onBeforeRendering in Hrun. rewrite _detachResizeHandlers_run in Hrun.
      injection Hrun as <-. unfold detach_content.
      destruct (_ !! RESIZE_HANDLER_ID_CONTENT); by apply children_kept_same.
    + rewrite onAfterRendering_applied in Hrun by done. injection Hrun as <-.
      apply (children_kept_trans _ (media_applied_opt (media_of_dom w) w));
        [by apply children_kept_media_applied_opt|].
      unfold attach_content. destruct (_ && _); [|apply children_kept_refl].
      destruct (_ !! RESIZE_HANDLER_ID_CONTENT); by apply children_kept_same.
    + unfold exit in Hrun. rewrite _detachResizeHandlers_run in Hrun.
      injection Hrun as <-. unfold detach_content.
      destruct (_ !! RESIZE_HANDLER_ID_CONTENT); by apply children_kept_same.
    + rewrite _updateDomSize_applied in Hrun by done. injection Hrun as <-.
      by apply children_kept_media_applied_opt.
  - unfold _onResize in Hrun. rewrite _updateMedia_applied in Hrun by done.
    injection Hrun as <-. by apply children_kept_media_applied_opt.
  - by apply children_kept_same.
  - by apply children_kept_same.
  - by apply children_kept_same.
Qed.

Lemma step_typed (w w' : World) : step w w' → typed w → typed w'.
Proof.
  intros Hstep Hw.
  destruct Hstep as [s w' Hrun|g o w' Hg Hrun|h w' Hh Hrun|n w' Hrun| | |ls n Hls].
  - rewrite setIllustrationType_run in Hrun. injection Hrun as <-.
    by case_bool_decide.
  - by destruct (getter_preserves g o w w' Hg Hw Hrun).
  - rewrite !elem_of_cons, elem_of_nil in Hh.
    destruct Hh as [->|[->|[->|[->|[]]]]].
    + unfold onBeforeRendering in Hrun. rewrite _detachResizeHandlers_run in Hrun.
      injection Hrun as <-. by apply detach_content_keeps.
    + rewrite onAfterRendering_applied in Hrun by done. injection Hrun as <-.
      by apply attach_content_keeps, media_applied_opt_typed.
    + unfold exit in Hrun. rewrite _detachResizeHandlers_run in Hrun.
      injection Hrun as <-. by apply detach_content_keeps.
    + rewrite _updateDomSize_applied in Hrun by done. injection Hrun as <-.
      by apply media_applied_opt_typed.
  - unfold _onResize in Hrun. rewrite _updateMedia_applied in Hrun by done.
    injection Hrun as <-. by apply media_applied_opt_typed.
  - done.
  - done.
  - done.
Qed.

(** A relation that every step from a well-typed world respects holds
    along every run. *)
Lemma along_steps (P : World → World → Prop) :
  (∀ w, P w w) → (∀ w1 w2 w3, P w1 w2 → P w2 w3 → P w1 w3) →
  (∀ w w', typed w → step w w' → P w w') →
  ∀ w w', typed w → rtc step w w' → P w w'.
Proof.
  intros Hrefl Htrans Hstep w w' Hw Hrun.
  induction Hrun as [w|w1 w2 w3 H12 _ IH]; [apply Hrefl|].
  apply (Htrans _ w2); [by apply Hstep|].
  apply IH. by apply (step_typed w1).
Qed.

(** X9. The control never replaces or drops a hidden child: whatever
    happens to it (any sequence of method calls, renderings, property
    changes and resize events), an aggregation that holds a child goes
    on holding that very object, and the object keeps its class. *)
Theorem children_never_replaced (w w' : World) :
  typed w → rtc step w w' →
  ∀ sName o, mAggregations (this w) !! sName = Some o →
    mAggregations (this w') !! sName = Some o
    ∧ class_name <$> objects w' !! o = class_name <$> objects w !! o.
Proof.
  intros Hw Hrun.
  apply (along_steps children_kept children_kept_refl children_kept_trans); try done.
  intros w1 w2 Hw1 Hstep. by apply step_children_kept.
Qed.

Lemma children_never_replaced_witness :
  typed example_rendered
  ∧ ∃ w' o,
      rtc step example_rendered w'
      ∧ illustrationType (this w') = "sapIllus-NoData"
      ∧ "sapFIllustratedMessage-Scene" ∈ aCustomStyleClasses (this w')
      ∧ mAggregations (this example_rendered) !! "_illustration" = Some o
      ∧ mAggregations (this w') !! "_illustration" = Some o.
Proof.
  split; [compute_done|].
  set (w1 := after (setIllustrationType "sapIllus-NoData") example_rendered).
  set (w2 := after (_onResize (Finite 1000)) w1).
  assert (Hrun : rtc step example_rendered w2).
  { apply (rtc_l _ _ w1); [|apply rtc_once].
    - apply (step_setIllustrationType _ "sapIllus-NoData"). by vm_compute.
    - apply (step_onResize _ (Finite 1000)). by vm_compute. }
  exists w2, 0. split; [done|]. split; [reflexivity|]. split; [compute_done|].
  split; [reflexivity|].
  by apply (children_never_replaced example_rendered w2 ltac:(compute_done) Hrun).
Defined.

(** X10. A style class that is not one of the four media classes is
    never added or removed by the control, whatever happens to it: the
    classes the application has put on the control stay, and no foreign
    class appears. *)
Theorem other_style_classes_untouched (w w' : World) :
  typed w → rtc step w w' →
  ∀ c, c ∉ media_classes →
    c ∈ aCustomStyleClasses (this w') ↔ c ∈ aCustomStyleClasses (this w).
Proof.
  intros Hw Hrun.
  apply (along_steps
           (λ w w', ∀ c, c ∉ media_classes →
              c ∈ aCustomStyleClasses (this w') ↔ c ∈ aCustomStyleClasses (this w)));
    try done.
  - intros w1 w2 w3 H12 H23 c Hc. by rewrite (H23 c Hc), (H12 c Hc).
  - intros w1 w2 Hw1 Hstep c Hc.
    destruct (step_classes w1 w2 Hstep Hw1) as [->|(m & Hm & ->)]; [done|].
    rewrite only_media_elem. split; [|tauto].
    intros [->|[? _]]; done.
Qed.

Lemma other_style_classes_untouched_witness :
  typed example_styled
  ∧ ∃ w',
      rtc step example_styled w'
      ∧ elements (aCustomStyleClasses (this example_styled))
        = ["sapUiSmallMargin"; "sapFIllustratedMessage-Spot"]
      ∧ "sapFIllustratedMessage-Scene" ∈ aCustomStyleClasses (this w')
      ∧ "sapUiSmallMargin" ∈ aCustomStyleClasses (this w').
Proof.
  split; [compute_done|].
  set (w1 := after (_onResize (Finite 1000)) example_styled).
  assert (Hrun : rtc step example_styled w1).
  { apply rtc_once. apply (step_onResize _ (Finite 1000)). by vm_compute. }
  exists w1. split; [done|]. split; [by vm_compute|]. split; [compute_done|].
  apply (other_style_classes_untouched example_styled w1 ltac:(compute_done) Hrun);
    compute_done.
Defined.

Lemma step_one_media (w w' : World) : step w w' → typed w → one_media w → one_media w'.
Proof.
  intros Hstep Hw H1.
  destruct (step_classes w w' Hstep Hw) as [E|(m & Hm & E)];
    intros c1 c2 Hc1 Hc2; rewrite !E.
  - by apply H1.
  - rewrite !only_media_elem. intros [->|[_ ?]] [->|[_ ?]]; done.
Qed.

(** X11. The control never carries two media classes at once: in every
    world it can be in, at most one of the four media style classes is
    on it. *)
Theorem at_most_one_media_class (w : World) :
  reachable w →
  ∀ c1 c2, c1 ∈ media_classes → c2 ∈ media_classes →
    c1 ∈ aCustomStyleClasses (this w) → c2 ∈ aCustomStyleClasses (this w) → c1 = c2.
Proof.
  induction 1 as [sType ob ls n b Hls|w w' Hreach IH Hstep].
  - intros c1 c2 _ _ H. simpl in H. set_solver.
  - apply (step_one_media w w' Hstep); [|exact IH].
    by apply reachable_invariant.
Qed.

Lemma at_most_one_media_class_witness :
  reachable example_rendered
  ∧ ∀ c, c ∈ media_classes → c ∈ aCustomStyleClasses (this example_rendered) →
         c = "sapFIllustratedMessage-Spot".
Proof.
  split; [exact example_rendered_reachable|].
  intros c Hc Hin.
  apply (at_most_one_media_class example_rendered example_rendered_reachable);
    [done|compute_done|done|compute_done].
Defined.



(** ** From the illustration type to what is shown *)

Lemma setIllustrationType_cached (s : string) (w : World) :
  cache_ok w →
  ∃ w1, setIllustrationType s w = Some (ThisRef, w1)
        ∧ cached_for s w1
        ∧ illustrationType (this w1) = s
        ∧ objects w1 = objects w
        ∧ mAggregations (this w1) = mAggregations (this w)
        ∧ aCustomStyleClasses (this w1) = aCustomStyleClasses (this w)
        ∧ title (this w1) = title (this w)
        ∧ description (this w1) = description (this w)
        ∧ enableFormattedText (this w1) = enableFormattedText (this w)
        ∧ oResourceBundle w1 = oResourceBundle w
        ∧ (typed w → typed w1).
Proof.
  intros Hc. rewrite setIllustrationType_run. eexists. split; [reflexivity|].
  case_bool_decide as Hs.
  - subst s. by split_and!.
  - split_and!; try done. split; simpl; [apply index_split_0|apply index_split_1].
Qed.

(** X13. Changing the illustration type changes the default texts: once
    [setIllustrationType] has been given a value [set-type], a control
    with an empty title and an empty description shows the bundle texts
    of ["IllustratedMessage_TITLE_" + type] and
    ["IllustratedMessage_DESCRIPTION_" + type]. *)
Theorem type_change_reaches_default_texts (pre mid : string) (w : World) :
  typed w → cache_ok w → has_dash pre = false → has_dash mid = false →
  title (this w) = "" → description (this w) = "" →
  ∃ w1 oTitle w2 oDescription w3,
    setIllustrationType (pre ++ "-" ++ mid) w = Some (ThisRef, w1)
    ∧ _getTitle w1 = Some (oTitle, w2)
    ∧ objects w2 !! oTitle
      = Some (Title (oResourceBundle w ("IllustratedMessage_TITLE_" ++ mid)))
    ∧ _getDescription w1 = Some (oDescription, w3)
    ∧ objects w3 !! oDescription
      = Some (if enableFormattedText (this w)
              then FormattedText
                     (oResourceBundle w ("IllustratedMessage_DESCRIPTION_" ++ mid))
              else Text (oResourceBundle w ("IllustratedMessage_DESCRIPTION_" ++ mid))).
Proof.
  intros Hw Hc Hp Hm Ht Hd.
  destruct (setIllustrationType_cached (pre ++ "-" ++ mid) w Hc)
    as (w1 & Hrun & [_ Hty] & _ & _ & _ & _ & Ht1 & Hd1 & Hf1 & Hb1 & Hw1).
  destruct (between_dashes_one pre mid Hp Hm) as [_ Hbd]. rewrite Hbd in Hty.
  specialize (Hw1 Hw).
  assert (Htt : title_text w1 = oResourceBundle w ("IllustratedMessage_TITLE_" ++ mid)).
  { unfold title_text. rewrite Ht1, Ht, Hty, Hb1. by case_bool_decide. }
  assert (Hdt : description_text w1
                = oResourceBundle w ("IllustratedMessage_DESCRIPTION_" ++ mid)).
  { unfold description_text. rewrite Hd1, Hd, Hty, Hb1.
    by case_bool_decide. }
  assert (Hsel : _getDescription w1
                 = if enableFormattedText (this w1) then _getFormattedText w1
                   else _getText w1).
  { unfold _getDescription, getEnableFormattedText. unfold_M.
    by destruct (enableFormattedText (this w1)). }
  rewrite Hf1 in Hsel.
  destruct (enableFormattedText (this w));
    eexists w1, _, _, _, _; rewrite Hsel; (split; [done|]);
    (split; [by apply _getTitle_spec|]);
    (split; [simpl; by rewrite lookup_insert_eq, Htt|]).
  - split; [by apply _getFormattedText_spec|]. simpl. by rewrite lookup_insert_eq, Hdt.
  - split; [by apply _getText_spec|]. simpl. by rewrite lookup_insert_eq, Hdt.
Qed.

Lemma type_change_reaches_default_texts_witness :
  typed example_rendered ∧ cache_ok example_rendered
  ∧ ∃ w1 oTitle w2,
      setIllustrationType "tnt-UnableToLoad" example_rendered = Some (ThisRef, w1)
      ∧ _sIllustrationSet (this w1) = JSString "tnt"
      ∧ _getTitle w1 = Some (oTitle, w2)
      ∧ objects w2 !! oTitle = Some (Title (JSString "Unable to load")).
Proof.
  split; [compute_done|]. split; [compute_done|].
  destruct (type_change_reaches_default_texts "tnt" "UnableToLoad" example_rendered)
    as (w1 & o & w2 & _ & _ & Hrun & Hget & Ho & _); try reflexivity; try compute_done.
  exists w1, o, w2. split; [done|]. split; [|by split].
  vm_compute in Hrun. by injection Hrun as <-.
Defined.

(** X14. A value without ["-"] leaves no type to look texts up with:
    after [setIllustrationType] with such a value the whole value is
    the cached set, and a control with an empty title asks the bundle
    for the key ["IllustratedMessage_TITLE_undefined"]. *)
Theorem type_without_dash_default_title (s : string) (w : World) :
  typed w → cache_ok w → has_dash s = false → title (this w) = "" →
  ∃ w1 oTitle w2,
    setIllustrationType s w = Some (ThisRef, w1)
    ∧ _sIllustrationSet (this w1) = JSString s
    ∧ _sIllustrationType (this w1) = undefined
    ∧ _getTitle w1 = Some (oTitle, w2)
    ∧ objects w2 !! oTitle
      = Some (Title (oResourceBundle w "IllustratedMessage_TITLE_undefined")).
Proof.
  intros Hw Hc Hs Ht.
  destruct (setIllustrationType_cached s w Hc)
    as (w1 & Hrun & [Hset Hty] & _ & _ & _ & _ & Ht1 & _ & _ & Hb1 & Hw1).
  destruct (segments_no_dash s Hs) as [Hbd Had].
  unfold between_dashes in Hty. rewrite Had in Hty. rewrite Hbd in Hset.
  specialize (Hw1 Hw). simpl in Hty.
  eexists w1, _, _. split; [done|]. split; [done|]. split; [done|].
  split; [by apply _getTitle_spec|].
  simpl. rewrite lookup_insert_eq. unfold title_text.
  rewrite Ht1, Ht, Hty, Hb1. by case_bool_decide.
Qed.

Lemma type_without_dash_default_title_witness :
  typed example_rendered ∧ cache_ok example_rendered
  ∧ ∃ w1 oTitle w2,
      setIllustrationType "NoData" example_rendered = Some (ThisRef, w1)
      ∧ _getTitle w1 = Some (oTitle, w2)
      ∧ objects w2 !! oTitle = Some (Title undefined).
Proof.
  split; [compute_done|]. split; [compute_done|].
  destruct (type_without_dash_default_title "NoData" example_rendered)
    as (w1 & o & w2 & Hrun & _ & _ & Hget & Ho); try reflexivity; try compute_done.
  by exists w1, o, w2.
Defined.




(** X16. Switching [enableFormattedText] switches the description child
    and keeps the other one: [_getDescription] with the flag off
    returns the [_text] child, and with the flag then turned on it
    returns the [_formattedText] child, a different object with the
    same text, while the [_text] child stays stored as it was. *)
Theorem description_child_switches (w : World) :
  typed w → enableFormattedText (this w) = false →
  ∃ oText w1 oFormatted w2,
    _getDescription w = Some (oText, w1)
    ∧ _getDescription
        (with_this (set_properties (description (this w1)) true
                      (illustrationSize (this w1)) (title (this w1))) w1)
      = Some (oFormatted, w2)
    ∧ oText ≠ oFormatted
    ∧ mAggregations (this w2) !! "_text" = Some oText
    ∧ mAggregations (this w2) !! "_formattedText" = Some oFormatted
    ∧ objects w2 !! oText = Some (Text (description_text w))
    ∧ objects w2 !! oFormatted = Some (FormattedText (description_text w)).
Proof.
  intros Hw Hf.
  assert (Hsel : ∀ w0, _getDescription w0
                       = if enableFormattedText (this w0) then _getFormattedText w0
                         else _getText w0).
  { intros w0. unfold _getDescription, getEnableFormattedText. unfold_M.
    by destruct (enableFormattedText (this w0)). }
  destruct (lazy_child_typed "_text" (Text undefined) w Hw eq_refl)
    as (c & Hc & Hcc & Ha & Hw0).
  set (oText := (lazy_child "_text" (Text undefined) w).1) in *.
  set (w1 := with_objects <[oText := Text (description_text w)]>
               (lazy_child "_text" (Text undefined) w).2).
  assert (Hw1 : typed w1) by (eapply typed_update; eauto; by rewrite Hcc).
  set (w1' := with_this (set_properties (description (this w1)) true
                           (illustrationSize (this w1)) (title (this w1))) w1).
  assert (Hw1' : typed w1') by done.
  assert (Hdt : description_text w1' = description_text w).
  { unfold description_text. simpl.
    destruct (skeleton_fields w _ (skeleton_lazy_child "_text" (Text undefined) w))
      as (-> & _ & _ & _ & _ & _ & _ & -> & _ & _ & _ & ->). done. }
  destruct (lazy_child_typed "_formattedText" (FormattedText undefined) w1' Hw1' eq_refl)
    as (c' & Hc' & Hcc' & Ha' & _).
  destruct (lazy_child_frame "_formattedText" (FormattedText undefined) w1')
    as (Hfa & Hfo & _).
  set (oF := (lazy_child "_formattedText" (FormattedText undefined) w1').1) in *.
  assert (Hne : oText ≠ oF).
  { intros E. specialize (Hfa "_text" ltac:(done)).
    destruct (decide (mAggregations (this w1') !! "_formattedText" = None)) as [En|En].
    - destruct (lazy_child_created "_formattedText" (FormattedText undefined) w1' En)
        as [Hfresh _].
      apply Hfresh. fold oF. rewrite <- E. apply elem_of_dom. simpl.
      rewrite lookup_insert_eq. by eexists.
    - destruct (mAggregations (this w1') !! "_formattedText") as [o'|] eqn:Eo; [|done].
      destruct (typed_lookup w1' "_formattedText" o' Hw1' Eo) as (cf & Hcf & Htf).
      assert (oF = o') by (subst oF; by rewrite (lazy_child_stored _ _ _ _ Eo)).
      subst o'. rewrite <- E in Hcf. simpl in Hcf. rewrite lookup_insert_eq in Hcf.
      injection Hcf as <-. done. }
  exists oText, w1, oF,
    (with_objects <[oF := FormattedText (description_text w1')]>
       (lazy_child "_formattedText" (FormattedText undefined) w1').2).
  split_and!.
  - rewrite Hsel, Hf. by apply _getText_spec.
  - rewrite Hsel. simpl. by apply _getFormattedText_spec.
  - done.
  - simpl. rewrite Hfa by done. exact Ha.
  - exact Ha'.
  - simpl. rewrite lookup_insert_ne by done. rewrite Hfo by done.
    simpl. apply lookup_insert_eq.
  - simpl. by rewrite lookup_insert_eq, Hdt.
Qed.

Lemma description_child_switches_witness :
  typed example_rendered ∧ enableFormattedText (this example_rendered) = false
  ∧ ∃ oText w1 oFormatted w2,
      _getDescription example_rendered = Some (oText, w1)
      ∧ _getDescription
          (with_this (set_properties (description (this w1)) true
                        (illustrationSize (this w1)) (title (this w1))) w1)
        = Some (oFormatted, w2)
      ∧ oText ≠ oFormatted
      ∧ objects w2 !! oText = Some (Text (JSString "Check your connection"))
      ∧ objects w2 !! oFormatted
        = Some (FormattedText (JSString "Check your connection")).
Proof.
  split; [compute_done|]. split; [reflexivity|].
  destruct (description_child_switches example_rendered)
    as (oT & w1 & oF & w2 & H1 & H2 & Hne & _ & _ & HoT & HoF);
    [compute_done|reflexivity|].
  exists oT, w1, oF, w2. by split_and!.
Defined.

(** X17. A changed title reaches the same child: when the [title]
    property is set to a non-empty value after [_getTitle] has run, the
    next [_getTitle] returns the object of the first call, now with the
    new title as its text, and creates no object. *)
Theorem title_change_reaches_same_child (sTitle : string) (w : World) :
  typed w → sTitle ≠ "" →
  ∃ o w1 w2,
    _getTitle w = Some (o, w1)
    ∧ _getTitle
        (with_this (set_properties (description (this w1)) (enableFormattedText (this w1))
                      (illustrationSize (this w1)) sTitle) w1)
      = Some (o, w2)
    ∧ objects w2 !! o = Some (Title (JSString sTitle))
    ∧ dom (objects w2) = dom (objects w1).
Proof.
  intros Hw Ht.
  destruct (lazy_child_typed "_title" (Title undefined) w Hw eq_refl)
    as (c & Hc & Hcc & Ha & Hw0).
  set (o := (lazy_child "_title" (Title undefined) w).1) in *.
  set (w1 := with_objects <[o := Title (title_text w)]>
               (lazy_child "_title" (Title undefined) w).2).
  assert (Hw1 : typed w1) by (eapply typed_update; eauto; by rewrite Hcc).
  set (w1' := with_this (set_properties (description (this w1))
                           (enableFormattedText (this w1))
                           (illustrationSize (this w1)) sTitle) w1).
  assert (Hw1' : typed w1') by done.
  assert (Hst : mAggregations (this w1') !! "_title" = Some o) by exact Ha.
  exists o, w1, (with_objects <[o := Title (JSString sTitle)]> w1').
  split_and!.
  - by apply _getTitle_spec.
  - rewrite _getTitle_spec by done. rewrite (lazy_child_stored _ _ _ _ Hst). simpl.
    unfold title_text. simpl. by rewrite bool_decide_eq_true_2.
  - simpl. apply lookup_insert_eq.
  - simpl. rewrite !dom_insert_L. set_solver.
Qed.

Lemma title_change_reaches_same_child_witness :
  typed example_rendered ∧ "Offline" ≠ ""
  ∧ ∃ o w1 w2,
      _getTitle example_rendered = Some (o, w1)
      ∧ objects w1 !! o = Some (Title (JSString "Unable to load"))
      ∧ _getTitle
          (with_this (set_properties (description (this w1))
                        (enableFormattedText (this w1))
                        (illustrationSize (this w1)) "Offline") w1)
        = Some (o, w2)
      ∧ objects w2 !! o = Some (Title (JSString "Offline")).
Proof.
  split; [compute_done|]. split; [done|].
  destruct (title_change_reaches_same_child "Offline" example_rendered)
    as (o & w1 & w2 & H1 & H2 & Ho & _); [compute_done|done|].
  exists o, w1, w2. split_and!; try done.
  vm_compute in H1. injection H1 as <- <-. by vm_compute.
Defined.

(** X18. The cache is a function of the last value given: two
    [setIllustrationType] calls in a row leave the very world the
    second call alone would leave, so setting a type and setting the
    former one back restores the control exactly. *)
Theorem setIllustrationType_last_value_decides (s1 s2 : string) (w : World) :
  cache_ok w →
  ∃ w1 w12 w2,
    setIllustrationType s1 w = Some (ThisRef, w1)
    ∧ setIllustrationType s2 w1 = Some (ThisRef, w12)
    ∧ setIllustrationType s2 w = Some (ThisRef, w2)
    ∧ w12 = w2
    ∧ (s2 = illustrationType (this w) → w12 = w).
Proof.
  intros [Hset Hty]. rewrite !setIllustrationType_run.
  eexists _, _, _. split; [reflexivity|]. rewrite setIllustrationType_run.
  split; [reflexivity|]. split; [reflexivity|].
  rewrite <- index_split_0 in Hset. rewrite <- index_split_1 in Hty.
  destruct w as [[d f z t ti ag cls dm cs ct hs] ob ls n b]. simpl in *.
  split; [|intros ->].
  - repeat case_bool_decide; simpl in *; subst; try done;
      unfold with_this, with_illustrationType, with_sIllustrationType,
        with_sIllustrationSet; simpl; congruence.
  - repeat case_bool_decide; simpl in *; subst; try done;
      unfold with_this, with_illustrationType, with_sIllustrationType,
        with_sIllustrationSet; simpl; congruence.
Qed.

Lemma setIllustrationType_last_value_decides_witness :
  cache_ok example_rendered
  ∧ ∃ w1 w12,
      setIllustrationType "tnt-Success" example_rendered = Some (ThisRef, w1)
      ∧ _sIllustrationType (this w1) = JSString "Success"
      ∧ setIllustrationType "sapIllus-UnableToLoad" w1 = Some (ThisRef, w12)
      ∧ w12 = example_rendered.
Proof.
  split; [compute_done|].
  destruct (setIllustrationType_last_value_decides "tnt-Success" "sapIllus-UnableToLoad"
              example_rendered)
    as (w1 & w12 & w2 & H1 & H12 & _ & _ & Hback); [compute_done|].
  exists w1, w12. split; [done|]. split; [|split; [done|by apply Hback]].
  vm_compute in H1. by injection H1 as <-.
Defined.
